(** * obsidian-pdf-utils: path safety and the save protocol

    A shallow embedding of [src/safetyUtils.ts] (class [SafetyUtils]) and of
    the [PDFProcessor] and [PDFResectorModal] classes of the plugin, followed
    by the properties of the design document that concern them.

    - JavaScript strings are sequences of UTF-16 code units; they are
      modelled as [list N], one number per code unit, so that the regular
      expression class [\s] and [String.prototype.trim] keep their full
      (non-ASCII) white space set.
    - JavaScript numbers holding page numbers are integers ([parseInt]
      results); they are modelled as [Z].
    - A JavaScript array has fewer than [2^32] elements: [Array.from]
      throws a [RangeError] for a longer one, and the pages of a pdf-lib
      document, which [getPages()] returns as an array, are fewer than
      that.  Memory is not limited otherwise.
    - [async] functions run to completion one after another; a rejected
      promise is an exception.  They are modelled in a state-and-exception
      monad over a [World] holding the vault, the pdf-lib documents and the
      behaviour of the environment.
    - The vault adapter of Obsidian and pdf-lib are not part of the
      repository.  The adapter is an in-memory file system: paths are
      compared as strings, a call that is let through does all of its work,
      a call that is rejected does none of it, and other processes only
      create folders.  Which calls are rejected, and what [doc.save()]
      returns, is given with the world. *)

From Stdlib Require Import ZArith NArith Lia String Ascii.
From stdpp Require Import base list gmap pretty.

Local Open Scope Z_scope.

(** ** JavaScript strings *)

Module JS.

Abbreviation jsstring := (list N).

(** A string literal: each character of the literal is one code unit. *)
Definition js (s : string) : jsstring :=
  map N_of_ascii (list_ascii_of_string s).

Definition SLASH : N := 47.      (* '/' *)
Definition BACKSLASH : N := 92.  (* '\\' *)
Definition DOT : N := 46.        (* '.' *)
Definition DASH : N := 45.       (* '-' *)
Definition COLON : N := 58.      (* ':' *)
Definition SPACE : N := 32.      (* ' ' *)

(** [s.startsWith(sub)] *)
Fixpoint startsWith (s sub : jsstring) {struct sub} : bool :=
  match sub, s with
  | [], _ => true
  | _ :: _, [] => false
  | x :: sub', c :: s' => N.eqb c x && startsWith s' sub'
  end.

(** [s.includes(sub)] *)
Fixpoint includes (s sub : jsstring) : bool :=
  startsWith s sub ||
  match s with
  | [] => false
  | _ :: s' => includes s' sub
  end.

(** [s.lastIndexOf(sub)]: the greatest index at which [sub] occurs, or -1. *)
Fixpoint lastIndexOf (s sub : jsstring) : Z :=
  match s with
  | [] => if startsWith [] sub then 0 else -1
  | _ :: s' =>
      let r := lastIndexOf s' sub in
      if r =? -1 then (if startsWith s sub then 0 else -1) else r + 1
  end.

(** Relative index of [slice]: negative counts from the end, then clamp. *)
Definition relIndex (len i : Z) : Z :=
  if i <? 0 then Z.max (len + i) 0 else Z.min i len.

(** [s.slice(from, to)] *)
Definition slice (s : jsstring) (from to : Z) : jsstring :=
  let len := Z.of_nat (length s) in
  let k := relIndex len from in
  let final := relIndex len to in
  take (Z.to_nat (final - k)) (drop (Z.to_nat k) s).

(** [s.slice(from)] *)
Definition sliceFrom (s : jsstring) (from : Z) : jsstring :=
  slice s from (Z.of_nat (length s)).

(** [s.split(sep)] for a one-unit separator; never the empty array. *)
Fixpoint split (s : jsstring) (sep : N) : list jsstring :=
  match s with
  | [] => [[]]
  | c :: s' =>
      if N.eqb c sep then [] :: split s' sep
      else match split s' sep with
           | seg :: rest => (c :: seg) :: rest
           | [] => [[c]]
           end
  end.

(** [parts.join(sep)] *)
Fixpoint join (parts : list jsstring) (sep : jsstring) : jsstring :=
  match parts with
  | [] => []
  | [p] => p
  | p :: rest => p ++ sep ++ join rest sep
  end.

(** [parts.pop()]: the array without its last element, and that element
    ([undefined] for the empty array). *)
Definition pop (parts : list jsstring) : list jsstring * option jsstring :=
  (removelast parts, last parts).

(** The class [\s] of a regular expression without the [u] flag, which is
    also the set [trim] strips: WhiteSpace and LineTerminator. *)
Definition isWhiteSpace (c : N) : bool :=
  existsb (N.eqb c)
    [9; 10; 11; 12; 13; 32; 160; 5760; 8232; 8233; 8239; 8287; 12288; 65279]%N
  || (N.leb 8192 c && N.leb c 8202).

(** [s.replace(/[class]/g, r)]: every unit of the class becomes [r]. *)
Definition replaceEach (cls : N -> bool) (r : N) (s : jsstring) : jsstring :=
  map (fun c => if cls c then r else c) s.

(** [s.replace(/[class]+/g, r)]: every maximal run of units of the class
    becomes a single [r].  [inRun] tells that the previous unit was in the
    class, so that the run has been replaced already. *)
Fixpoint replaceRuns (cls : N -> bool) (r : N) (inRun : bool) (s : jsstring)
  : jsstring :=
  match s with
  | [] => []
  | c :: s' =>
      if cls c
      then (if inRun then replaceRuns cls r true s'
            else r :: replaceRuns cls r true s')
      else c :: replaceRuns cls r false s'
  end.

Fixpoint trimStart (s : jsstring) : jsstring :=
  match s with
  | [] => []
  | c :: s' => if isWhiteSpace c then trimStart s' else s
  end.

Fixpoint trimEnd (s : jsstring) : jsstring :=
  match s with
  | [] => []
  | c :: s' =>
      match trimEnd s' with
      | [] => if isWhiteSpace c then [] else [c]
      | t => c :: t
      end
  end.

(** [s.trim()] *)
Definition trim (s : jsstring) : jsstring := trimEnd (trimStart s).

(** [s.replace(/^\/+|\/+$/g, '')]: leading and trailing slashes go. *)
Fixpoint stripLeading (c : N) (s : jsstring) : jsstring :=
  match s with
  | [] => []
  | x :: s' => if N.eqb x c then stripLeading c s' else s
  end.

Fixpoint stripTrailing (c : N) (s : jsstring) : jsstring :=
  match s with
  | [] => []
  | x :: s' =>
      match stripTrailing c s' with
      | [] => if N.eqb x c then [] else [x]
      | t => x :: t
      end
  end.

(** A JavaScript array has fewer than [2^32] elements: [new Array(len)]
    and a write to [length] throw a [RangeError] beyond that. *)
Definition MAX_ARRAY_LENGTH : Z := 4294967295.

Definition INVALID_ARRAY_LENGTH : jsstring := js "Invalid array length".

(** The elements [l] can be held in an array. *)
Definition fits {A} (l : list A) : bool :=
  Z.of_nat (length l) <=? MAX_ARRAY_LENGTH.

End JS.
Import JS.

(** ** The environment: vault, documents, interference *)

Module Env.

(** A JavaScript exception is represented by its [message]. *)
Inductive Res (A : Type) : Type :=
| Ok (a : A)
| Err (message : jsstring).
Arguments Ok {A} a.
Arguments Err {A} message.

(** What the environment does at one call of the vault adapter.
    [Interfere p]: another process creates the folder [p] just before the
    call; [Throw m]: the call is rejected with message [m] and has no
    effect (a full disk, a permission, a folder that exists already);
    [Pass]: the call does its work. *)
Inductive event : Type :=
| Pass
| Throw (message : jsstring)
| Interfere (p : jsstring).

(** A page is its content; a pdf-lib document is its pages in order.
    [getPages()] returns them as an array, so they are fewer than
    [2^32]. *)
Abbreviation Page := (list Byte.byte).

Record PDFDocument : Type := mkDocument {
  getPages :> list Page;
  pages_fit : fits getPages
}.

Record World : Type := mkWorld {
  files : gmap jsstring (list Byte.byte);  (* files of the vault *)
  dirs : gset jsstring;                    (* folders of the vault *)
  docs : list PDFDocument;                 (* pdf-lib documents, by handle *)
  codec : PDFDocument -> Res (list Byte.byte);   (* what [doc.save()] gives *)
  pending : list event                     (* the environment, call by call *)
}.

Definition M (A : Type) : Type := World -> Res A * World.

Definition ret {A} (a : A) : M A := fun w => (Ok a, w).

Definition throw {A} (message : jsstring) : M A := fun w => (Err message, w).

(** A computation without effect on the world: its value, or its
    exception. *)
Definition lift {A} (r : Res A) : M A := fun w => (r, w).

Definition bind {A B} (m : M A) (k : A -> M B) : M B :=
  fun w =>
    match m w with
    | (Ok a, w') => k a w'
    | (Err e, w') => (Err e, w')
    end.

(** [try { m } catch (error) { handler(error.message) }] *)
Definition try_catch {A} (m : M A) (handler : jsstring -> M A) : M A :=
  fun w =>
    match m w with
    | (Ok a, w') => (Ok a, w')
    | (Err e, w') => handler e w'
    end.

Declare Scope js_scope.
Delimit Scope js_scope with js.
Notation "x <- m ;; k" := (bind m (fun x => k))
  (at level 100, m at next level, right associativity) : js_scope.
Notation "m ;;; k" := (bind m (fun _ => k))
  (at level 100, right associativity) : js_scope.

(** [for (const x of xs) { body(x) }] *)
Fixpoint forOf {A} (xs : list A) (body : A -> M unit) : M unit :=
  match xs with
  | [] => ret tt
  | x :: xs' => bind (body x) (fun _ => forOf xs' body)
  end.

(** The environment's part of one adapter call: folders created by others
    in the meantime, then whether the call is let through. *)
Fixpoint settle (evs : list event) (ds : gset jsstring)
  : option jsstring * list event * gset jsstring :=
  match evs with
  | [] => (None, [], ds)
  | Pass :: evs' => (None, evs', ds)
  | Throw m :: evs' => (Some m, evs', ds)
  | Interfere p :: evs' => settle evs' ({[p]} ∪ ds)
  end.

Definition call {A} (work : World -> Res A * World) : M A :=
  fun w =>
    match settle (pending w) (dirs w) with
    | (fault, evs, ds) =>
        let w1 := mkWorld (files w) ds (docs w) (codec w) evs in
        match fault with
        | Some m => (Err m, w1)
        | None => work w1
        end
    end.

End Env.
Import Env.
Local Open Scope js_scope.

(** ** The vault adapter ([app.vault.adapter]) *)

Module Adapter.

Definition ENOENT : jsstring := js "ENOENT: no such file or directory".

Definition present (path : jsstring) (w : World) : bool :=
  bool_decide (is_Some (files w !! path)) || bool_decide (path ∈ dirs w).

(** [adapter.exists(path)]: is there a file or a folder at [path]?
    ([exists] is a keyword, hence the name.) *)
Definition exists_ (path : jsstring) : M bool :=
  call (fun w => (Ok (present path w), w)).

(** [adapter.mkdir(path)] *)
Definition mkdir (path : jsstring) : M unit :=
  call (fun w =>
          (Ok tt, mkWorld (files w) ({[path]} ∪ dirs w) (docs w) (codec w)
                          (pending w))).

(** [adapter.writeBinary(path, data)]: the whole buffer, in one call. *)
Definition writeBinary (path : jsstring) (data : list Byte.byte) : M unit :=
  call (fun w =>
          (Ok tt, mkWorld (<[path := data]> (files w)) (dirs w) (docs w)
                          (codec w) (pending w))).

(** [adapter.readBinary(path)] *)
Definition readBinary (path : jsstring) : M (list Byte.byte) :=
  call (fun w =>
          match files w !! path with
          | Some data => (Ok data, w)
          | None => (Err ENOENT, w)
          end).

(** [adapter.remove(path)]: deletes a file. *)
Definition remove (path : jsstring) : M unit :=
  call (fun w =>
          match files w !! path with
          | Some _ =>
              (Ok tt, mkWorld (delete path (files w)) (dirs w) (docs w)
                              (codec w) (pending w))
          | None => (Err ENOENT, w)
          end).

(** [adapter.stat(path)]: [null] ([None]) when nothing is at [path],
    otherwise the size in bytes (0 for a folder). *)
Definition stat (path : jsstring) : M (option Z) :=
  call (fun w =>
          (Ok match files w !! path with
              | Some data => Some (Z.of_nat (length data))
              | None => if bool_decide (path ∈ dirs w) then Some 0 else None
              end,
           w)).

End Adapter.

(** ** pdf-lib, as far as the plugin uses it

    The library is not part of the repository; documents live in
    [docs], a handle is an index into it.  The plugin only holds handles
    of documents it has loaded or created; on any other number the
    functions below behave as on a document without pages. *)

Module PdfLib.

Abbreviation handle := nat.

Definition NOT_A_PAGE : jsstring :=
  js "Cannot read properties of undefined (reading 'node')".

Definition emptyDocument : PDFDocument := mkDocument [] I.

(** The document with the pages [l], if an array can hold them. *)
Definition document (l : list Page) : option PDFDocument :=
  match decide (Is_true (fits l)) with
  | left H => Some (mkDocument l H)
  | right _ => None
  end.

(** The document behind a handle. *)
Definition deref (doc : handle) (w : World) : PDFDocument :=
  default emptyDocument (docs w !! doc).

(** [PDFDocument.create()]: a new document without pages. *)
Definition create : M handle :=
  fun w =>
    (Ok (length (docs w)),
     mkWorld (files w) (dirs w) (docs w ++ [emptyDocument]) (codec w)
             (pending w)).

(** [doc.getPageCount()] *)
Definition getPageCount (doc : handle) (w : World) : Z :=
  Z.of_nat (length (deref doc w)).

(** [const [page] = await this.copyPages(src, [index])]: a copy of page
    [index] (from 0) of [src], made for [this] and not yet among its
    pages; an index outside the pages of [src] is a [TypeError]. *)
Definition copyPages (this src : handle) (index : Z) : M Page :=
  fun w =>
    match
      (if index <? 0 then None
       else getPages (deref src w) !! Z.to_nat index)
    with
    | Some page => (Ok page, w)
    | None => (Err NOT_A_PAGE, w)
    end.

(** [this.addPage(page)]: [page] becomes the last page of [this].  A
    document whose pages fill an array cannot take another one; the
    callers in the plugin never get there, a new document receiving at
    most the pages of one array of indexes. *)
Definition addPage (this : handle) (page : Page) : M unit :=
  fun w =>
    match document (deref this w ++ [page]) with
    | Some d =>
        (Ok tt,
         mkWorld (files w) (dirs w) (<[this := d]> (docs w)) (codec w)
                 (pending w))
    | None => (Err INVALID_ARRAY_LENGTH, w)
    end.

(** [doc.save()]: the bytes of the document, or the codec's failure. *)
Definition save (doc : handle) : M (list Byte.byte) :=
  fun w => (codec w (deref doc w), w).

(** [PDFDocument.load(pdfFile)]: the document read from the bytes, or
    the failure of the parser.  [parse] is pdf-lib's parser. *)
Definition load (parse : list Byte.byte -> Res PDFDocument)
           (pdfFile : list Byte.byte) : M handle :=
  fun w =>
    match parse pdfFile with
    | Ok d =>
        (Ok (length (docs w)),
         mkWorld (files w) (dirs w) (docs w ++ [d]) (codec w) (pending w))
    | Err e => (Err e, w)
    end.

(** [await this.copyPages(src, indices)] with several indexes: the copies,
    in the order of the indexes, or a [TypeError] at the first index
    outside the pages of [src]. *)
Fixpoint copyPagesAll (this src : handle) (indices : list Z)
  : M (list Page) :=
  match indices with
  | [] => ret []
  | index :: rest =>
      page <- copyPages this src index ;;
      pages <- copyPagesAll this src rest ;;
      ret (page :: pages)
  end.

End PdfLib.

(** [Array.from({ length }, (_, i) => f(i))]: a length below 1 gives the
    empty array, a length of [2^32] or more is a [RangeError] (the array is
    made by [new Array(length)] before [f] is called).  An array of any
    smaller length can be built: memory is not modelled. *)
Definition Array_from {A} (len : Z) (f : Z -> A) : Res (list A) :=
  if MAX_ARRAY_LENGTH <? len then Err INVALID_ARRAY_LENGTH
  else Ok (map (fun i => f (Z.of_nat i)) (seq 0 (Z.to_nat len))).

(** A number in a template literal. *)
Definition numberToString (n : Z) : jsstring := js (pretty n).

(** ** class SafetyUtils (safetyUtils.ts) *)

Module SafetyUtils.

Record SafetyCheckResult : Type := mkResult {
  success : bool;
  message : option jsstring
}.

Definition MAX_PDF_SIZE : Z := 100 * 1024 * 1024.

(** [isPathInVault(path)] *)
Definition isPathInVault (path : jsstring) : bool :=
  if includes path (js "../") || includes path [DOT; DOT; BACKSLASH]
  then false
  else
    let normalizedPath := stripTrailing SLASH (stripLeading SLASH path) in
    let pathComponents := split normalizedPath SLASH in
    forallb (fun component =>
               negb (bool_decide (component = []))
               && negb (bool_decide (component = js "."))
               && negb (bool_decide (component = js ".."))
               && negb (includes component [BACKSLASH])
               && negb (includes component [COLON]))
            pathComponents.

(** The character class of [sanitizeString]: the units
    60 62 58 34 124 63 42 92, that is  <  >  :  double quote  |  ?  *
    and the backslash. *)
Definition isInvalidChar (c : N) : bool :=
  existsb (N.eqb c) [60; 62; 58; 34; 124; 63; 42; 92]%N.

Definition isDash (c : N) : bool := N.eqb c DASH.

(** [sanitizeString(str)] *)
Definition sanitizeString (str : jsstring) : jsstring :=
  trim
    (replaceRuns isDash DASH false
       (replaceRuns isWhiteSpace SPACE false
          (replaceEach isInvalidChar DASH str))).

(** [sanitizePath(filename)] *)
Definition sanitizePath (filename : jsstring) : jsstring :=
  let lastDotIndex := lastIndexOf filename [DOT] in
  if lastDotIndex =? -1 then sanitizeString filename
  else
    let baseName := slice filename 0 lastDotIndex in
    let extension := sliceFrom filename lastDotIndex in
    let sanitizedBase := sanitizeString baseName in
    sanitizedBase ++ extension.

Definition INVALID_PATH : jsstring :=
  js "Invalid path: attempting to access location outside vault".

(** [validateAndCreatePath(outputPath)] *)
Definition validateAndCreatePath (outputPath : jsstring) : M jsstring :=
  if negb (isPathInVault outputPath) then throw INVALID_PATH
  else
    let (pathParts, popped) := pop (split outputPath SLASH) in
    let filename :=
      match popped with
      | Some (c :: f) => c :: f
      | _ => js "output"      (* [pathParts.pop() || 'output'] *)
      end in
    let directory := join pathParts [SLASH] in
    let sanitizedFilename := sanitizePath filename in
    (match directory with
     | [] => ret tt
     | _ =>
         try_catch
           (ex <- Adapter.exists_ directory ;;
            if negb ex then Adapter.mkdir directory else ret tt)
           (fun error => throw (js "Failed to create directory: " ++ error))
     end) ;;;
    ret (match directory with
         | [] => sanitizedFilename
         | _ => directory ++ [SLASH] ++ sanitizedFilename
         end).

(** The loop of [ensureDirectoryExists]. *)
Fixpoint ensureParts (parts : list jsstring) (currentPath : jsstring)
  : M unit :=
  match parts with
  | [] => ret tt
  | part :: rest =>
      let currentPath :=
        match currentPath with
        | [] => part
        | _ => currentPath ++ [SLASH] ++ part
        end in
      ex <- Adapter.exists_ currentPath ;;
      (if negb ex then Adapter.mkdir currentPath else ret tt) ;;;
      ensureParts rest currentPath
  end.

(** [ensureDirectoryExists(directory)] *)
Definition ensureDirectoryExists (directory : jsstring) : M unit :=
  match directory with
  | [] => ret tt
  | _ =>
      let parts :=
        filter (fun part => (0 < length part)%nat) (split directory SLASH) in
      ensureParts parts []
  end.

(** [ensureSafeOutput(path, fileSize?)] *)
Definition ensureSafeOutput (path : jsstring) (fileSize : option Z)
  : M SafetyCheckResult :=
  try_catch
    (if negb (isPathInVault path)
     then ret (mkResult false (Some INVALID_PATH))
     else if match fileSize with
             | Some n => negb (n =? 0) && (MAX_PDF_SIZE <? n)
             | None => false
             end
     then ret (mkResult false
                        (Some (js "File size exceeds maximum allowed size")))
     else
       let sanitizedPath := sanitizePath path in
       ensureDirectoryExists
         (join (removelast (split sanitizedPath SLASH)) [SLASH]) ;;;
       ret (mkResult true None))
    (fun error =>
       ret (mkResult false (Some (js "Safety check failed: " ++ error)))).

End SafetyUtils.

(** ** class PDFProcessor (pdfProcessor.ts)

    [updateProgress] only calls [progressCallback], which nothing in the
    repository ever sets ([setProgressCallback] has no caller): it does
    nothing, and is left out, as are the [console] lines. *)

Module PDFProcessor.

(** [extractPages(doc, startPage, endPage)] *)
Definition extractPages (doc : PdfLib.handle) (startPage endPage : Z)
  : M PdfLib.handle :=
  pageIndexes <-
    lift (Array_from (endPage - startPage + 1) (fun i => i + startPage - 1)) ;;
  newDoc <- PdfLib.create ;;
  forOf pageIndexes
    (fun pageIndex =>
       page <- PdfLib.copyPages newDoc doc pageIndex ;;
       PdfLib.addPage newDoc page) ;;;
  ret newDoc.

(** [savePDF(doc, outputPath)] *)
Definition savePDF (doc : PdfLib.handle) (outputPath : jsstring) : M unit :=
  safePath <- SafetyUtils.validateAndCreatePath outputPath ;;
  let tempPath := safePath ++ js ".temp" in
  try_catch
    (pdfBytes <- PdfLib.save doc ;;
     (* Write to temporary file first *)
     Adapter.writeBinary tempPath pdfBytes ;;;
     (* If the file exists, we'll need to overwrite it *)
     ex <- Adapter.exists_ safePath ;;
     (if ex then Adapter.remove safePath else ret tt) ;;;
     (* Move temporary file to final destination *)
     Adapter.writeBinary safePath pdfBytes ;;;
     (* Clean up temporary file *)
     try_catch (Adapter.remove tempPath) (fun _ => ret tt))
    (fun error =>
       (* Try to clean up temporary file if there was an error *)
       try_catch (Adapter.remove tempPath) (fun _ => ret tt) ;;;
       throw (js "Failed to save PDF: " ++ error)) ;;;
  try_catch
    ((* After saving the file, verify it exists *)
     finalExists <- Adapter.exists_ safePath ;;
     if negb finalExists then throw (js "File was not saved successfully")
     else ret tt)
    (fun error => throw (js "Failed to verify saved PDF: " ++ error)).

(** [ensureSafeOutput(outputPath)].  The promise of the notice is settled
    by a click: [click] is [Some true] for the Overwrite button,
    [Some false] for Cancel, [None] when neither is ever clicked; the
    result [None] is a promise that stays pending. *)
Definition ensureSafeOutput (click : option bool) (outputPath : jsstring)
  : M (option bool) :=
  safePath <- SafetyUtils.validateAndCreatePath outputPath ;;
  ex <- Adapter.exists_ safePath ;;
  if ex then ret click
  else ret (Some true).

Definition MAX_PDF_SIZE : Z := 100 * 1024 * 1024.

(** [Math.round(size / 1024 / 1024)] for a size in bytes. *)
Definition roundMB (size : Z) : Z := (size + 524288) / 1048576.

(** [loadPDF(path)]; [parse] is the parser of pdf-lib. *)
Definition loadPDF (parse : list Byte.byte -> Res PDFDocument)
           (path : jsstring) : M PdfLib.handle :=
  try_catch
    ((* Check file size *)
     stat <- Adapter.stat path ;;
     (match stat with
      | Some size =>
          if MAX_PDF_SIZE <? size
          then throw (js "File size (" ++ numberToString (roundMB size)
                        ++ js "MB) exceeds maximum allowed size (100MB)")
          else ret tt
      | None => ret tt
      end) ;;;
     pdfFile <- Adapter.readBinary path ;;
     PdfLib.load parse pdfFile)
    (fun error => throw (js "Failed to load PDF: " ++ error)).

End PDFProcessor.

(** ** class PDFProcessor of the first version (the former main.ts, kept
    after safetyUtils.ts): no path check, no temporary file, and all the
    pages copied by one call of [copyPages]. *)

Module LegacyPDFProcessor.

(** [loadPDF(pdfPath)] *)
Definition loadPDF (parse : list Byte.byte -> Res PDFDocument)
           (pdfPath : jsstring) : M PdfLib.handle :=
  pdfFile <- Adapter.readBinary pdfPath ;;
  PdfLib.load parse pdfFile.

(** [extractPages(doc, startPage, endPage)] *)
Definition extractPages (doc : PdfLib.handle) (startPage endPage : Z)
  : M PdfLib.handle :=
  pageIndexes <-
    lift (Array_from (endPage - startPage + 1) (fun i => i + startPage - 1)) ;;
  newDoc <- PdfLib.create ;;
  pages <- PdfLib.copyPagesAll newDoc doc pageIndexes ;;
  forOf pages (fun page => PdfLib.addPage newDoc page) ;;;
  ret newDoc.

(** [savePDF(doc, outputPath)] *)
Definition savePDF (doc : PdfLib.handle) (outputPath : jsstring) : M unit :=
  pdfBytes <- PdfLib.save doc ;;
  Adapter.writeBinary outputPath pdfBytes.

(** [ensureDirectoryExists(path)] *)
Definition ensureDirectoryExists (path : jsstring) : M unit :=
  ex <- Adapter.exists_ path ;;
  if negb ex then Adapter.mkdir path else ret tt.

End LegacyPDFProcessor.

(** ** class PDFResectorModal (pdfResectorModal.ts): the input check *)

Module PDFResectorModal.

Record modal : Type := mkModal {
  pdfPath : jsstring;
  startPage : Z;
  endPage : Z;
  outputName : jsstring;
  outputDir : jsstring;
  doc : option PdfLib.handle     (* [null] until a PDF is loaded *)
}.

(** [validateInput()]: [null] ([None]) when the input is accepted. *)
Definition validateInput (this : modal) (w : World) : option jsstring :=
  match pdfPath this with
  | [] => Some (js "Please select a PDF file")
  | _ =>
  match doc this with
  | None => Some (js "PDF document not loaded")
  | Some d =>
      if (startPage this =? 0) || (endPage this =? 0)
         || (endPage this <? startPage this)
      then Some (js "Please enter valid page numbers")
      else if (startPage this <? 1)
              || (PdfLib.getPageCount d w <? endPage this)
      then Some (js "Page numbers must be between 1 and "
                   ++ numberToString (PdfLib.getPageCount d w))
      else match outputName this with
           | [] => Some (js "Please enter an output filename")
           | _ => None
           end
  end
  end.

(** What the user sees of [splitPDF]: the text of the notice, and whether
    the modal has been closed. *)
Record outcome : Type := mkOutcome {
  notice : jsstring;
  closed : bool
}.

(** [s.endsWith(suffix)] *)
Definition endsWith (s suffix : jsstring) : bool :=
  startsWith (rev s) (rev suffix).

(** [s.substring(0, end)]: an end below 0 counts as 0. *)
Definition substring0 (s : jsstring) (end_ : Z) : jsstring :=
  take (Z.to_nat end_) s.

Definition withOutputName (this : modal) (name : jsstring) : modal :=
  mkModal (pdfPath this) (startPage this) (endPage this) name
          (outputDir this) (doc this).

(** [splitPDF()].  [sourcePath] is what
    [this.app.vault.getAbstractFileByPath(this.pdfPath)?.path] gives
    ([undefined] is [None]) and [toLowerCase] is
    [String.prototype.toLowerCase]; the result is the notice shown, the
    modal as it is left, and the world. *)
Definition splitPDF (sourcePath : option jsstring)
           (toLowerCase : jsstring -> jsstring) (this : modal)
  : World -> (outcome * modal) * World :=
  fun w =>
    match validateInput this w with
    | Some validationError => ((mkOutcome validationError false, this), w)
    | None =>
        match doc this, sourcePath with
        | Some doc, Some (c :: rest) =>
            let sourcePath := c :: rest in
            (* Ensure output name has .pdf extension *)
            let outputName :=
              if negb (endsWith (toLowerCase (outputName this)) (js ".pdf"))
              then outputName this ++ js ".pdf"
              else outputName this in
            let body : M jsstring :=
              newDoc <- PDFProcessor.extractPages doc (startPage this)
                                                  (endPage this) ;;
              (* Get the parent folder of the source file *)
              let sourceDirectory :=
                substring0 sourcePath (lastIndexOf sourcePath [SLASH]) in
              let outputFolder :=
                match trim (outputDir this) with
                | [] => sourceDirectory
                | _ =>
                    if startsWith (outputDir this) [SLASH] then outputDir this
                    else [SLASH] ++ outputDir this
                end in
              let outputPath :=
                outputFolder
                  ++ (if endsWith outputFolder [SLASH] then [] else [SLASH])
                  ++ outputName in
              (if negb (SafetyUtils.isPathInVault outputPath)
               then throw (js "Output path must be within the vault")
               else ret tt) ;;;
              PDFProcessor.savePDF newDoc outputPath ;;;
              (* Verify file exists *)
              ex <- Adapter.exists_ outputPath ;;
              (if ex then (_ <- Adapter.stat outputPath ;; ret tt)
               else ret tt) ;;;
              ret outputPath in
            match body w with
            | (Ok outputPath, w') =>
                ((mkOutcome (js "Successfully created " ++ outputPath) true,
                  withOutputName this outputName), w')
            | (Err error, w') =>
                ((mkOutcome (js "Error splitting PDF: " ++ error) false,
                  withOutputName this outputName), w')
            end
        | _, _ =>
            ((mkOutcome
                (js "Error splitting PDF: Could not resolve source file path")
                false, this), w)
        end
    end.

End PDFResectorModal.

(** * Vocabulary of the properties *)

(** ** Strings *)

Definition headIs (cls : N -> bool) (s : jsstring) : bool :=
  match s with
  | [] => false
  | c :: _ => cls c
  end.

(** [settled cls r s]: every unit of [s] in the class is [r] and stands
    alone; such strings are left as they are by [replaceRuns cls r]. *)
Fixpoint settled (cls : N -> bool) (r : N) (s : jsstring) : bool :=
  match s with
  | [] => true
  | c :: s' =>
      (if cls c then N.eqb c r && negb (headIs cls s') else true)
      && settled cls r s'
  end.

(** What [sanitizeString] establishes, and what makes it the identity. *)
Definition clean (s : jsstring) : Prop :=
  Forall (fun c => SafetyUtils.isInvalidChar c = false) s /\
  settled isWhiteSpace SPACE s = true /\
  settled SafetyUtils.isDash DASH s = true /\
  trim s = s.

(** ** Paths *)

(** The path [validateAndCreatePath] returns when it returns one. *)
Definition safePathOf (outputPath : jsstring) : jsstring :=
  let directory := join (removelast (split outputPath SLASH)) [SLASH] in
  let filename :=
    match last (split outputPath SLASH) with
    | Some (c :: f) => c :: f
    | _ => js "output"
    end in
  match directory with
  | [] => SafetyUtils.sanitizePath filename
  | _ => directory ++ [SLASH] ++ SafetyUtils.sanitizePath filename
  end.

(** The folder [validateAndCreatePath] provides. *)
Definition directoryOf (outputPath : jsstring) : jsstring :=
  join (removelast (split outputPath SLASH)) [SLASH].

(** [currentPath] of the loop of [ensureDirectoryExists] after [part]. *)
Definition nextPath (currentPath part : jsstring) : jsstring :=
  match currentPath with
  | [] => part
  | _ => currentPath ++ [SLASH] ++ part
  end.

(** [currentPath] after the loop of [ensureDirectoryExists] has gone
    through [parts]. *)
Definition pathAfter (parts : list jsstring) (currentPath : jsstring)
  : jsstring :=
  fold_left nextPath parts currentPath.

(** ** Worlds *)

Definition withDocs (w : World) (ds : list PDFDocument) : World :=
  mkWorld (files w) (dirs w) ds (codec w) (pending w).

(** [w'] differs from [w] at most in the document [h]. *)
Definition onlyDoc (h : PdfLib.handle) (w w' : World) : Prop :=
  files w' = files w /\ dirs w' = dirs w /\ codec w' = codec w /\
  pending w' = pending w /\
  forall d, d <> h -> docs w' !! d = docs w !! d.

(** [w'] has the files, documents and codec of [w]. *)
Definition sameFiles (w w' : World) : Prop :=
  files w' = files w /\ docs w' = docs w /\ codec w' = codec w.

(** The vault after the folder [directory] has been provided. *)
Definition provided (directory : jsstring) (w : World) : World :=
  match directory with
  | [] => w
  | _ =>
      if Adapter.present directory w then w
      else mkWorld (files w) ({[directory]} ∪ dirs w) (docs w) (codec w)
                   (pending w)
  end.

(** What [doc.save()] gives for the document [doc] of [w]. *)
Definition serialize (w : World) (doc : PdfLib.handle) : Res (list Byte.byte) :=
  codec w (PdfLib.deref doc w).

(** The [try] block of [savePDF]. *)
Definition writeSteps (doc : PdfLib.handle) (safePath tempPath : jsstring)
  : M unit :=
  pdfBytes <- PdfLib.save doc ;;
  Adapter.writeBinary tempPath pdfBytes ;;;
  ex <- Adapter.exists_ safePath ;;
  (if ex then Adapter.remove safePath else ret tt) ;;;
  Adapter.writeBinary safePath pdfBytes ;;;
  try_catch (Adapter.remove tempPath) (fun _ => ret tt).

(** ** Concrete worlds *)

Definition page (b : Byte.byte) : Page := [b].

(** One loaded document of ten pages, an empty vault, a codec that writes
    the pages one after another, a quiet environment. *)
Definition tenPages : World :=
  mkWorld ∅ ∅
    [mkDocument
       [page Byte.x01; page Byte.x02; page Byte.x03; page Byte.x04;
        page Byte.x05; page Byte.x06; page Byte.x07; page Byte.x08;
        page Byte.x09; page Byte.x0a] I]
    (fun d => Ok (concat d)) [].


(** A vault with the files [files0] and no folder, one document of two
    pages, and the environment [evs]. *)
Definition vaultWith (files0 : gmap jsstring (list Byte.byte))
           (evs : list event) : World :=
  mkWorld files0 ∅ [mkDocument [page Byte.x01; page Byte.x02] I]
          (fun d => Ok (concat d)) evs.

Definition oldBytes : list Byte.byte := [Byte.x6f; Byte.x6c; Byte.x64].

Definition ENOSPC : jsstring := js "ENOSPC: no space left on device".

Definition EEXIST : jsstring := js "EEXIST: file already exists".

(** The disk is full at the fourth adapter call of [savePDF], the final
    write, and a file is already at [out.pdf]. *)
Definition diskFull : World :=
  vaultWith {[ js "out.pdf" := oldBytes ]} [Pass; Pass; Pass; Throw ENOSPC].

(** The existence check after the final write is rejected. *)
Definition checkFails : World :=
  vaultWith {[ js "out.pdf" := oldBytes ]}
            [Pass; Pass; Pass; Pass; Pass; Throw (js "EIO: i/o error")].

(** The folder [a] is there.  [a/b] is not when [ensureDirectoryExists]
    asks, another process creates it, and [mkdir] is then rejected. *)
Definition raced : World :=
  mkWorld ∅ {[ js "a" ]} [] (fun d => Ok (concat d))
          [Pass; Pass; Interfere (js "a/b"); Throw EEXIST].

(** ** Vocabulary of the further properties *)

(** [isPathInVault] without its leading and trailing slashes. *)
Definition normalized (path : jsstring) : jsstring :=
  stripTrailing SLASH (stripLeading SLASH path).

(** The temporary file of [savePDF] for [outputPath]. *)
Definition tempPathOf (outputPath : jsstring) : jsstring :=
  safePathOf outputPath ++ js ".temp".

(** The vault after [mkdir] has been used for [p] if nothing was there. *)
Definition ensured (w : World) (p : jsstring) : World :=
  if Adapter.present p w then w
  else mkWorld (files w) ({[p]} ∪ dirs w) (docs w) (codec w) (pending w).

(** The values [currentPath] takes in the loop of
    [ensureDirectoryExists]. *)
Fixpoint prefixPaths (parts : list jsstring) (currentPath : jsstring)
  : list jsstring :=
  match parts with
  | [] => []
  | part :: rest =>
      nextPath currentPath part :: prefixPaths rest (nextPath currentPath part)
  end.

(** The segments [ensureDirectoryExists] goes through. *)
Definition segments (directory : jsstring) : list jsstring :=
  filter (fun part => (0 < length part)%nat) (split directory SLASH).

(** The document made of the pages [startPage .. endPage] of a document
    (a part of the pages of a document always fits an array, see
    [pageRange_pages]). *)
Definition pageRange (ps : PDFDocument) (startPage endPage : Z) : PDFDocument :=
  default PdfLib.emptyDocument
    (PdfLib.document (take (Z.to_nat (endPage - startPage + 1))
                           (drop (Z.to_nat (startPage - 1)) ps))).

(** The size limit of [ensureSafeOutput] is passed. *)
Definition oversize (fileSize : option Z) : bool :=
  match fileSize with
  | Some n => negb (n =? 0) && (SafetyUtils.MAX_PDF_SIZE <? n)
  | None => false
  end.

(** A parser for the concrete worlds: one page per byte. *)
Definition bytePages (data : list Byte.byte) : Res PDFDocument :=
  match data, PdfLib.document (map page data) with
  | _ :: _, Some d => Ok d
  | _, _ => Err (js "No PDF header found")
  end.

(** A vault whose codec fails, with a file where [savePDF] puts its
    temporary file for [out.pdf]. *)
Definition noCodec : World :=
  mkWorld {[ js "out.pdf.temp" := oldBytes ]} ∅
          [mkDocument [page Byte.x01] I]
          (fun _ => Err (js "encode failed")) [].

(** A quiet vault with a stale file at the temporary path of [out.pdf]. *)
Definition staleTemp : World :=
  vaultWith {[ js "out.pdf.temp" := oldBytes ]} [].

(** A quiet vault with a file of three bytes at [book.pdf]. *)
Definition withBook : World :=
  vaultWith {[ js "book.pdf" := [Byte.x07; Byte.x08; Byte.x09] ]} [].

(** The output name [splitPDF] works with. *)
Definition outputNameOf (toLowerCase : jsstring -> jsstring)
           (this : PDFResectorModal.modal) : jsstring :=
  if negb (PDFResectorModal.endsWith
             (toLowerCase (PDFResectorModal.outputName this)) (js ".pdf"))
  then PDFResectorModal.outputName this ++ js ".pdf"
  else PDFResectorModal.outputName this.

(** The folder [splitPDF] writes to, for the source file [sourcePath]. *)
Definition outputFolderOf (sourcePath : jsstring)
           (this : PDFResectorModal.modal) : jsstring :=
  match trim (PDFResectorModal.outputDir this) with
  | [] =>
      PDFResectorModal.substring0 sourcePath (lastIndexOf sourcePath [SLASH])
  | _ =>
      if startsWith (PDFResectorModal.outputDir this) [SLASH]
      then PDFResectorModal.outputDir this
      else [SLASH] ++ PDFResectorModal.outputDir this
  end.

(** The path [splitPDF] hands to [savePDF]. *)
Definition outputPathOf (sourcePath : jsstring)
           (toLowerCase : jsstring -> jsstring)
           (this : PDFResectorModal.modal) : jsstring :=
  outputFolderOf sourcePath this
    ++ (if PDFResectorModal.endsWith (outputFolderOf sourcePath this) [SLASH]
        then [] else [SLASH])
    ++ outputNameOf toLowerCase this.

(** The [try] block of [splitPDF] once the input is accepted and the
    source file resolved; it returns the path named in the notice. *)
Definition splitBody (sourcePath : jsstring)
           (toLowerCase : jsstring -> jsstring)
           (this : PDFResectorModal.modal) (doc : PdfLib.handle) : M jsstring :=
  newDoc <- PDFProcessor.extractPages doc (PDFResectorModal.startPage this)
                                      (PDFResectorModal.endPage this) ;;
  (if negb (SafetyUtils.isPathInVault
              (outputPathOf sourcePath toLowerCase this))
   then throw (js "Output path must be within the vault")
   else ret tt) ;;;
  PDFProcessor.savePDF newDoc (outputPathOf sourcePath toLowerCase this) ;;;
  ex <- Adapter.exists_ (outputPathOf sourcePath toLowerCase this) ;;
  (if ex
   then (_ <- Adapter.stat (outputPathOf sourcePath toLowerCase this) ;; ret tt)
   else ret tt) ;;;
  ret (outputPathOf sourcePath toLowerCase this).

(** Lower case for the letters A to Z, enough for the concrete worlds. *)
Definition asciiLower (s : jsstring) : jsstring :=
  map (fun c => if (N.leb 65 c && N.leb c 90)%bool then (c + 32)%N else c) s.

(** A modal whose output name gets sanitized. *)
Definition spacedModal : PDFResectorModal.modal :=
  PDFResectorModal.mkModal (js "books/book.pdf") 3 5 (js "part  one") []
                           (Some 0%nat).

(** A modal asking for the pages 3 to 5 of document 0. *)
Definition goodModal : PDFResectorModal.modal :=
  PDFResectorModal.mkModal (js "book.pdf") 3 5 (js "part") [] (Some 0%nat).

(** * Properties *)

(** ** Facts about the string operations *)

Section StringFacts.

Implicit Types (s t sub pre post : jsstring) (c r : N) (cls : N -> bool).

Lemma startsWith_app sub post : startsWith (sub ++ post) sub = true.
Proof.
  induction sub as [|x sub IH]; simpl; [reflexivity|].
  now rewrite N.eqb_refl, IH.
Qed.

Lemma includes_cons c s sub :
  includes s sub = true -> includes (c :: s) sub = true.
Proof. intros H. simpl. rewrite H. apply orb_true_r. Qed.

(** An occurrence of [sub] anywhere in [s] is found by [includes]. *)
Lemma includes_occurrence pre sub post :
  includes (pre ++ sub ++ post) sub = true.
Proof.
  induction pre as [|c pre IH].
  - simpl. destruct (sub ++ post) eqn:E; simpl;
      rewrite <- ?E, startsWith_app; reflexivity.
  - simpl app. now apply includes_cons.
Qed.

Lemma startsWith_dot s :
  startsWith s [DOT] = match s with c :: _ => N.eqb c DOT | [] => false end.
Proof. destruct s as [|c s]; simpl; [reflexivity|]. apply andb_true_r. Qed.

Lemma lastIndexOf_cons c s :
  lastIndexOf (c :: s) [DOT] =
    if lastIndexOf s [DOT] =? -1
    then (if N.eqb c DOT then 0 else -1)
    else lastIndexOf s [DOT] + 1.
Proof.
  change (lastIndexOf (c :: s) [DOT])
    with (if lastIndexOf s [DOT] =? -1
          then (if startsWith (c :: s) [DOT] then 0 else -1)
          else lastIndexOf s [DOT] + 1).
  now rewrite startsWith_dot.
Qed.

Lemma lastIndexOf_none s :
  Forall (fun c => c <> DOT) s -> lastIndexOf s [DOT] = -1.
Proof.
  induction 1 as [|c s Hc _ IH]; [reflexivity|].
  rewrite lastIndexOf_cons, IH. simpl.
  now apply N.eqb_neq in Hc as ->.
Qed.

Lemma lastIndexOf_last_dot s e :
  Forall (fun c => c <> DOT) e ->
  lastIndexOf (s ++ DOT :: e) [DOT] = Z.of_nat (length s).
Proof.
  intros He. induction s as [|c s IH].
  - simpl app. rewrite lastIndexOf_cons, (lastIndexOf_none e He). reflexivity.
  - simpl app. rewrite lastIndexOf_cons, IH.
    destruct (Z.eqb_spec (Z.of_nat (length s)) (-1)); [lia|].
    simpl length. lia.
Qed.

(** A string has no dot, or a last one. *)
Lemma last_dot_cases s :
  Forall (fun c => c <> DOT) s \/
  exists b e, s = b ++ DOT :: e /\ Forall (fun c => c <> DOT) e.
Proof.
  induction s as [|c s [IH|(b & e & -> & He)]].
  - left. constructor.
  - destruct (N.eq_dec c DOT) as [->|Hc].
    + right. exists [], s. split; [reflexivity|exact IH].
    + left. now constructor.
  - right. exists (c :: b), e. split; [reflexivity|exact He].
Qed.

Lemma slice_base b e :
  slice (b ++ DOT :: e) 0 (Z.of_nat (length b)) = b.
Proof.
  unfold slice, relIndex. rewrite length_app. simpl length.
  replace (0 <? 0) with false by reflexivity.
  destruct (Z.ltb_spec (Z.of_nat (length b)) 0); [lia|].
  rewrite Z.min_l, Z.min_l by lia.
  replace (Z.to_nat (Z.of_nat (length b) - 0)) with (length b) by lia.
  simpl drop. apply take_app_length.
Qed.

Lemma sliceFrom_extension b e :
  sliceFrom (b ++ DOT :: e) (Z.of_nat (length b)) = DOT :: e.
Proof.
  unfold sliceFrom, slice, relIndex. rewrite length_app. simpl length.
  destruct (Z.ltb_spec (Z.of_nat (length b)) 0); [lia|].
  destruct (Z.ltb_spec (Z.of_nat (length b + S (length e))) 0); [lia|].
  rewrite Z.min_l, Z.min_l by lia.
  rewrite Nat2Z.id, drop_app_length.
  apply take_ge. simpl length. lia.
Qed.

(** *** Runs *)

Lemma replaceRuns_flag cls r b s :
  headIs cls s = false -> replaceRuns cls r b s = replaceRuns cls r false s.
Proof. destruct s as [|c s]; simpl; [reflexivity|]. now intros ->. Qed.

Lemma replaceRuns_fixed cls r s :
  settled cls r s = true -> replaceRuns cls r false s = s.
Proof.
  induction s as [|c s IH]; simpl; [reflexivity|].
  intros [H1 H2]%andb_true_iff. destruct (cls c).
  - apply andb_true_iff in H1 as [->%N.eqb_eq Hh%negb_true_iff].
    rewrite (replaceRuns_flag _ _ true _ Hh). now rewrite IH.
  - now rewrite IH.
Qed.

Lemma replaceRuns_settled cls r b s :
  cls r = true ->
  settled cls r (replaceRuns cls r b s) = true /\
  (b = true -> headIs cls (replaceRuns cls r b s) = false).
Proof.
  intros Hr. revert b. induction s as [|c s IH]; intros b; simpl.
  - split; reflexivity.
  - destruct (cls c) eqn:Hc.
    + destruct b.
      * apply IH.
      * destruct (IH true) as [IH1 IH2]. simpl.
        rewrite Hr, N.eqb_refl, IH1, (IH2 eq_refl). split; [reflexivity|].
        discriminate.
    + destruct (IH false) as [IH1 _]. simpl. rewrite Hc, IH1.
      split; [reflexivity|]. reflexivity.
Qed.

(** Replacing runs of one class keeps strings settled for a disjoint one. *)
Lemma headIs_replaceRuns cls r Q s :
  (forall c, cls c = true -> Q c = false) -> Q r = false ->
  headIs Q (replaceRuns cls r false s) = headIs Q s.
Proof.
  intros Hd Hr. destruct s as [|c s]; simpl; [reflexivity|].
  destruct (cls c) eqn:Hc; simpl; [|reflexivity].
  now rewrite Hr, (Hd c Hc).
Qed.

Lemma replaceRuns_keeps_settled cls r Q q b s :
  (forall c, cls c = true -> Q c = false) -> Q r = false ->
  settled Q q s = true -> settled Q q (replaceRuns cls r b s) = true.
Proof.
  intros Hd Hr. revert b. induction s as [|c s IH]; intros b; simpl;
    [reflexivity|].
  intros [H1 H2]%andb_true_iff. destruct (cls c) eqn:Hc.
  - destruct b; [now apply IH|]. simpl. rewrite Hr. now apply IH.
  - simpl. rewrite (IH false H2), andb_true_r.
    destruct (Q c); [|reflexivity].
    now rewrite (headIs_replaceRuns cls r Q s Hd Hr).
Qed.

Lemma replaceRuns_Forall (P : N -> Prop) cls r b s :
  P r -> Forall P s -> Forall P (replaceRuns cls r b s).
Proof.
  intros Hr H. revert b. induction H as [|c s Hc _ IH]; intros b; simpl.
  - constructor.
  - destruct (cls c); [destruct b|]; auto.
Qed.

Lemma replaceEach_Forall (P : N -> Prop) cls r s :
  P r -> Forall P s -> Forall P (replaceEach cls r s).
Proof.
  intros Hr H. unfold replaceEach. induction H as [|c s Hc _ IH]; simpl.
  - constructor.
  - constructor; [destruct (cls c); assumption|exact IH].
Qed.

Lemma replaceEach_outside cls r s :
  cls r = false -> Forall (fun c => cls c = false) (replaceEach cls r s).
Proof.
  intros Hr. unfold replaceEach. induction s as [|c s IH]; simpl.
  - constructor.
  - constructor; [|exact IH]. destruct (cls c) eqn:Hc; assumption.
Qed.

Lemma replaceEach_fixed cls r s :
  Forall (fun c => cls c = false) s -> replaceEach cls r s = s.
Proof.
  unfold replaceEach. induction 1 as [|c s Hc _ IH]; simpl; [reflexivity|].
  now rewrite Hc, IH.
Qed.

End StringFacts.

(** ** Facts about [trim] *)

Section TrimFacts.

Implicit Types (s t : jsstring) (c r : N) (cls : N -> bool).

Lemma trimStart_head s : headIs isWhiteSpace (trimStart s) = false.
Proof.
  induction s as [|c s IH]; simpl; [reflexivity|].
  destruct (isWhiteSpace c) eqn:Hc; [exact IH|]. simpl. exact Hc.
Qed.

Lemma trimStart_fixed s : headIs isWhiteSpace s = false -> trimStart s = s.
Proof. destruct s as [|c s]; simpl; [reflexivity|]. now intros ->. Qed.

(** A non-empty [trimEnd s] starts as [s] does. *)
Lemma trimEnd_head s c t : trimEnd s = c :: t -> exists s', s = c :: s'.
Proof.
  destruct s as [|x s]; simpl; [discriminate|].
  destruct (trimEnd s); [destruct (isWhiteSpace x)|]; intros [= <- _]; eauto.
Qed.

Lemma trimEnd_headIs cls s :
  headIs cls s = false -> headIs cls (trimEnd s) = false.
Proof.
  intros H. destruct (trimEnd s) as [|c t] eqn:E; [reflexivity|].
  apply trimEnd_head in E as [s' ->]. exact H.
Qed.

Lemma trimEnd_idem s : trimEnd (trimEnd s) = trimEnd s.
Proof.
  induction s as [|c s IH]; simpl; [reflexivity|].
  destruct (trimEnd s) as [|d t] eqn:E.
  - destruct (isWhiteSpace c) eqn:Hc; simpl; [reflexivity|]. now rewrite Hc.
  - change (trimEnd (c :: d :: t))
      with (match trimEnd (d :: t) with
            | [] => if isWhiteSpace c then [] else [c]
            | u => c :: u
            end).
    now rewrite IH.
Qed.

Lemma trim_idem s : trim (trim s) = trim s.
Proof.
  unfold trim.
  rewrite (trimStart_fixed (trimEnd (trimStart s))).
  - apply trimEnd_idem.
  - apply trimEnd_headIs, trimStart_head.
Qed.

Lemma trimStart_Forall (P : N -> Prop) s :
  Forall P s -> Forall P (trimStart s).
Proof.
  induction 1 as [|c s Hc Hs IH]; simpl; [constructor|].
  destruct (isWhiteSpace c); [exact IH|now constructor].
Qed.

Lemma trimEnd_Forall (P : N -> Prop) s :
  Forall P s -> Forall P (trimEnd s).
Proof.
  induction 1 as [|c s Hc Hs IH]; simpl; [constructor|].
  destruct (trimEnd s); [destruct (isWhiteSpace c)|]; repeat constructor;
    solve [assumption | now inversion IH].
Qed.

Lemma trimStart_settled cls r s :
  settled cls r s = true -> settled cls r (trimStart s) = true.
Proof.
  induction s as [|c s IH]; simpl; [reflexivity|].
  intros H. destruct (isWhiteSpace c); [|exact H].
  apply andb_true_iff in H as [_ H]. now apply IH.
Qed.

Lemma trimEnd_settled cls r s :
  settled cls r s = true -> settled cls r (trimEnd s) = true.
Proof.
  induction s as [|c s IH]; simpl; [reflexivity|].
  intros [H1 H2]%andb_true_iff. specialize (IH H2).
  destruct (trimEnd s) as [|d t] eqn:E.
  - destruct (isWhiteSpace c); [reflexivity|]. simpl.
    destruct (cls c); [|reflexivity].
    apply andb_true_iff in H1 as [-> _]. reflexivity.
  - apply trimEnd_head in E as [s' ->].
    change (settled cls r (c :: d :: t))
      with ((if cls c then N.eqb c r && negb (cls d) else true)
            && settled cls r (d :: t)).
    now rewrite IH, andb_true_r.
Qed.

End TrimFacts.

(** ** [sanitizeString] and [sanitizePath] *)

Section SanitizeFacts.

Import SafetyUtils.

Implicit Types (s filename : jsstring).

Lemma dash_not_space c : isDash c = true -> isWhiteSpace c = false.
Proof. unfold isDash. now intros ->%N.eqb_eq. Qed.

Lemma sanitizeString_clean s : clean (sanitizeString s).
Proof.
  unfold sanitizeString, clean, trim. repeat split.
  - apply trimEnd_Forall, trimStart_Forall.
    do 2 (apply replaceRuns_Forall; [reflexivity|]).
    now apply replaceEach_outside.
  - apply trimEnd_settled, trimStart_settled.
    apply replaceRuns_keeps_settled;
      [exact dash_not_space | reflexivity |].
    now apply replaceRuns_settled.
  - apply trimEnd_settled, trimStart_settled.
    now apply replaceRuns_settled.
  - apply trim_idem.
Qed.

Lemma sanitizeString_fixed s : clean s -> sanitizeString s = s.
Proof.
  intros (H1 & H2 & H3 & H4). unfold sanitizeString.
  rewrite (replaceEach_fixed _ _ _ H1).
  rewrite (replaceRuns_fixed _ _ _ H2).
  now rewrite (replaceRuns_fixed _ _ _ H3).
Qed.

Lemma sanitizeString_idem s :
  sanitizeString (sanitizeString s) = sanitizeString s.
Proof. apply sanitizeString_fixed, sanitizeString_clean. Qed.

Lemma sanitizeString_Forall (P : N -> Prop) s :
  P DASH -> P SPACE -> Forall P s -> Forall P (sanitizeString s).
Proof.
  intros Hd Hs H. unfold sanitizeString, trim.
  apply trimEnd_Forall, trimStart_Forall.
  apply replaceRuns_Forall; [exact Hd|].
  apply replaceRuns_Forall; [exact Hs|].
  now apply replaceEach_Forall.
Qed.

Lemma sanitizePath_no_dot s :
  Forall (fun c => c <> DOT) s -> sanitizePath s = sanitizeString s.
Proof. intros H. unfold sanitizePath. now rewrite (lastIndexOf_none s H). Qed.

Lemma sanitizePath_last_dot b e :
  Forall (fun c => c <> DOT) e ->
  sanitizePath (b ++ DOT :: e) = sanitizeString b ++ DOT :: e.
Proof.
  intros He. unfold sanitizePath. rewrite (lastIndexOf_last_dot b e He).
  destruct (Z.eqb_spec (Z.of_nat (length b)) (-1)); [lia|].
  now rewrite slice_base, sliceFrom_extension.
Qed.

End SanitizeFacts.

(** C8.  [sanitizePath] is idempotent: sanitizing a sanitized file name
    changes nothing. *)
Theorem sanitizePath_idempotent (x : jsstring) :
  SafetyUtils.sanitizePath (SafetyUtils.sanitizePath x)
  = SafetyUtils.sanitizePath x.
Proof.
  destruct (last_dot_cases x) as [H|(b & e & -> & He)].
  - rewrite (sanitizePath_no_dot x H).
    rewrite sanitizePath_no_dot; [apply sanitizeString_idem|].
    apply sanitizeString_Forall; [discriminate..|exact H].
  - rewrite (sanitizePath_last_dot b e He).
    rewrite (sanitizePath_last_dot _ e He).
    now rewrite sanitizeString_idem.
Qed.

(** C9.  For a file name with a dot, the result of [sanitizePath] is the
    sanitized base followed by the extension of the input (from its last
    dot on) as it stands, and that is also the extension of the result. *)
Theorem sanitizePath_keeps_extension (x : jsstring) :
  DOT ∈ x ->
  let extension := sliceFrom x (lastIndexOf x [DOT]) in
  let baseName := slice x 0 (lastIndexOf x [DOT]) in
  x = baseName ++ extension /\
  head extension = Some DOT /\
  SafetyUtils.sanitizePath x
  = SafetyUtils.sanitizeString baseName ++ extension /\
  sliceFrom (SafetyUtils.sanitizePath x)
            (lastIndexOf (SafetyUtils.sanitizePath x) [DOT])
  = extension.
Proof.
  intros Hdot. destruct (last_dot_cases x) as [H|(b & e & -> & He)].
  - exfalso. rewrite Forall_forall in H. now apply (H DOT).
  - cbv zeta. rewrite (sanitizePath_last_dot b e He).
    rewrite !(lastIndexOf_last_dot _ e He).
    rewrite slice_base, !sliceFrom_extension. auto.
Qed.

Lemma sanitizePath_keeps_extension_witness :
  SafetyUtils.sanitizePath (js "My:Notes*.tar.pdf") = js "My-Notes-.tar.pdf" /\
  sliceFrom (SafetyUtils.sanitizePath (js "My:Notes*.tar.pdf"))
            (lastIndexOf (SafetyUtils.sanitizePath (js "My:Notes*.tar.pdf"))
                         [DOT])
  = js ".pdf".
Proof.
  split; [vm_compute; reflexivity|].
  refine (proj2 (proj2 (proj2
            (sanitizePath_keeps_extension (js "My:Notes*.tar.pdf") _)))).
  apply (bool_decide_unpack _). vm_compute. exact I.
Defined.

(** C10.  A file name whose only dot is its first character comes back
    unchanged: its base is empty and the whole name is its extension, so
    the characters [sanitizeString] would replace stay. *)
Theorem sanitizePath_dotfile (rest : jsstring) :
  DOT ∉ rest ->
  lastIndexOf (DOT :: rest) [DOT] = 0 /\
  slice (DOT :: rest) 0 0 = [] /\
  SafetyUtils.sanitizePath (DOT :: rest) = DOT :: rest.
Proof.
  intros Hrest.
  assert (He : Forall (fun c => c <> DOT) rest).
  { apply Forall_forall. intros c Hc ->. now apply Hrest. }
  split; [exact (lastIndexOf_last_dot [] rest He)|].
  split; [reflexivity|].
  exact (sanitizePath_last_dot [] rest He).
Qed.

Lemma sanitizePath_dotfile_witness :
  SafetyUtils.sanitizePath (js ".My:Notes*") = js ".My:Notes*".
Proof.
  refine (proj2 (proj2 (sanitizePath_dotfile (js "My:Notes*") _))).
  apply (bool_decide_unpack _). vm_compute. exact I.
Defined.

(** ** Facts about the monad and the adapter *)

Section EnvFacts.

Context {A : Type}.
Implicit Types (w : World) (m : M A).

Lemma bind_ok {B} m (k : A -> M B) w a w1 :
  m w = (Ok a, w1) -> bind m k w = k a w1.
Proof. unfold bind. now intros ->. Qed.

Lemma bind_err {B} m (k : A -> M B) w e w1 :
  m w = (Err e, w1) -> bind m k w = (Err e, w1).
Proof. unfold bind. now intros ->. Qed.

Lemma try_ok m h w a w1 : m w = (Ok a, w1) -> try_catch m h w = (Ok a, w1).
Proof. unfold try_catch. now intros ->. Qed.

Lemma try_err m h w e w1 : m w = (Err e, w1) -> try_catch m h w = h e w1.
Proof. unfold try_catch. now intros ->. Qed.

(** With nothing pending the adapter call just does its work. *)
Lemma call_calm (work : World -> Res A * World) w :
  pending w = [] -> call work w = work w.
Proof. destruct w as [f d ds c p]. simpl. intros ->. reflexivity. Qed.

(** The environment's part of a call leaves files and documents alone. *)
Lemma call_inv (work : World -> Res A * World) w r w' :
  call work w = (r, w') ->
  exists w1,
    files w1 = files w /\ docs w1 = docs w /\ codec w1 = codec w /\
    ((exists e, r = Err e /\ w' = w1) \/ work w1 = (r, w')).
Proof.
  unfold call. destruct (settle (pending w) (dirs w)) as [[fault evs] ds].
  intros H. exists (mkWorld (files w) ds (docs w) (codec w) evs).
  repeat split. destruct fault as [e|].
  - left. exists e. now inversion H.
  - now right.
Qed.

End EnvFacts.

(** ** Rejected paths *)

(** C3.  A path with [../] or [..\] somewhere in it is refused by
    [isPathInVault]; [validateAndCreatePath] and its callers stop there,
    with the vault as it was: no path is returned, nothing is created. *)
Theorem traversal_rejected (path pre post : jsstring) :
  path = pre ++ js "../" ++ post \/
  path = pre ++ [DOT; DOT; BACKSLASH] ++ post ->
  SafetyUtils.isPathInVault path = false /\
  forall w,
    SafetyUtils.validateAndCreatePath path w
    = (Err SafetyUtils.INVALID_PATH, w) /\
    (forall doc,
        PDFProcessor.savePDF doc path w = (Err SafetyUtils.INVALID_PATH, w)) /\
    (forall click,
        PDFProcessor.ensureSafeOutput click path w
        = (Err SafetyUtils.INVALID_PATH, w)) /\
    (forall fileSize,
        SafetyUtils.ensureSafeOutput path fileSize w
        = (Ok (SafetyUtils.mkResult false (Some SafetyUtils.INVALID_PATH)),
           w)).
Proof.
  intros H.
  assert (Hv : SafetyUtils.isPathInVault path = false).
  { unfold SafetyUtils.isPathInVault.
    destruct H as [-> | ->]; rewrite includes_occurrence;
      [reflexivity | now rewrite orb_true_r]. }
  split; [exact Hv|]. intros w.
  assert (Hp : SafetyUtils.validateAndCreatePath path w
               = (Err SafetyUtils.INVALID_PATH, w)).
  { unfold SafetyUtils.validateAndCreatePath. now rewrite Hv. }
  split; [exact Hp|]. split; [|split].
  - intros doc. unfold PDFProcessor.savePDF. now rewrite (bind_err _ _ _ _ _ Hp).
  - intros click. unfold PDFProcessor.ensureSafeOutput.
    now rewrite (bind_err _ _ _ _ _ Hp).
  - intros fileSize. unfold SafetyUtils.ensureSafeOutput. now rewrite Hv.
Qed.

Lemma traversal_rejected_witness :
  SafetyUtils.isPathInVault (js "../../etc/passwd") = false.
Proof.
  refine (proj1 (traversal_rejected (js "../../etc/passwd") []
                   (js "../etc/passwd") _)).
  left. reflexivity.
Defined.

(** ** Page extraction *)

Section ExtractFacts.

Import PdfLib.

Implicit Types (w : World) (ps acc : PDFDocument) (l : list Page).

Lemma fits_le {A} (xs : list A) :
  fits xs <-> Z.of_nat (length xs) <= MAX_ARRAY_LENGTH.
Proof. unfold fits. rewrite Is_true_true. apply Z.leb_le. Qed.

(** A document is its pages. *)
Lemma document_eq (d1 d2 : PDFDocument) : getPages d1 = getPages d2 -> d1 = d2.
Proof.
  destruct d1 as [l1 H1], d2 as [l2 H2]. simpl. intros ->.
  f_equal. apply proof_irrel.
Qed.

Lemma document_Some l :
  fits l -> exists d, document l = Some d /\ getPages d = l.
Proof.
  intros H. unfold document. destruct (decide (fits l)) as [H'|]; [|tauto].
  now eexists.
Qed.

Lemma document_inv l d : document l = Some d -> getPages d = l.
Proof.
  unfold document. destruct (decide (fits l)); [|discriminate].
  now intros [= <-].
Qed.

Lemma document_None l :
  document l = None -> MAX_ARRAY_LENGTH < Z.of_nat (length l).
Proof.
  unfold document. destruct (decide (fits l)) as [|H]; [discriminate|].
  intros _. rewrite fits_le in H. lia.
Qed.

Lemma document_pages ps : document ps = Some ps.
Proof.
  destruct (document_Some ps (pages_fit ps)) as (d & -> & H).
  f_equal. now apply document_eq.
Qed.

Lemma deref_known w h ps : docs w !! h = Some ps -> deref h w = ps.
Proof. unfold deref. now intros ->. Qed.

Lemma pageRange_pages ps startPage endPage :
  getPages (pageRange ps startPage endPage)
  = take (Z.to_nat (endPage - startPage + 1))
         (drop (Z.to_nat (startPage - 1)) ps).
Proof.
  unfold pageRange.
  destruct (document_Some
              (take (Z.to_nat (endPage - startPage + 1))
                    (drop (Z.to_nat (startPage - 1)) ps)))
    as (d & -> & H); [|exact H].
  apply fits_le. pose proof (proj1 (fits_le ps) (pages_fit ps)).
  rewrite length_take, length_drop. lia.
Qed.

Lemma Array_from_ok {A} (len : Z) (f : Z -> A) :
  len <= MAX_ARRAY_LENGTH ->
  Array_from len f = Ok (map (fun i => f (Z.of_nat i)) (seq 0 (Z.to_nat len))).
Proof.
  intros H. unfold Array_from. now destruct (Z.ltb_spec MAX_ARRAY_LENGTH len); [lia|].
Qed.

Lemma Array_from_err {A} (len : Z) (f : Z -> A) :
  MAX_ARRAY_LENGTH < len -> Array_from len f = Err INVALID_ARRAY_LENGTH.
Proof.
  intros H. unfold Array_from. now destruct (Z.ltb_spec MAX_ARRAY_LENGTH len); [|lia].
Qed.

(** [extractPages] once [Array.from] has made the indexes. *)
Lemma extractPages_small doc startPage endPage :
  endPage - startPage + 1 <= MAX_ARRAY_LENGTH ->
  PDFProcessor.extractPages doc startPage endPage
  = (newDoc <- create ;;
     forOf (map (fun i => Z.of_nat i + startPage - 1)
                (seq 0 (Z.to_nat (endPage - startPage + 1))))
       (fun pageIndex =>
          page <- copyPages newDoc doc pageIndex ;; addPage newDoc page) ;;;
     ret newDoc).
Proof.
  intros H. unfold PDFProcessor.extractPages.
  rewrite (Array_from_ok _ _ H). reflexivity.
Qed.

(** A range of [2^32] pages or more: [Array.from] throws, before anything
    else is done. *)
Lemma extractPages_large doc startPage endPage w :
  MAX_ARRAY_LENGTH < endPage - startPage + 1 ->
  PDFProcessor.extractPages doc startPage endPage w
  = (Err INVALID_ARRAY_LENGTH, w).
Proof.
  intros H. unfold PDFProcessor.extractPages.
  rewrite (Array_from_err _ _ H). reflexivity.
Qed.

(** One turn of the loop: page [idx] of [src] becomes the last of [h]. *)
Lemma copy_one w src h ps acc idx (p : Page) (d : PDFDocument) :
  h <> src -> docs w !! src = Some ps -> docs w !! h = Some acc ->
  0 <= idx -> getPages ps !! Z.to_nat idx = Some p ->
  getPages d = acc ++ [p] ->
  bind (copyPages h src idx) (fun page => addPage h page) w
  = (Ok tt, withDocs w (<[h := d]> (docs w))).
Proof.
  intros Hne Hs Hh Hi Hp Hd. unfold bind, copyPages.
  rewrite (deref_known _ _ _ Hs).
  destruct (Z.ltb_spec idx 0); [lia|]. rewrite Hp.
  unfold addPage. rewrite (deref_known _ _ _ Hh), <- Hd, document_pages.
  reflexivity.
Qed.

Lemma copy_loop src h ps idxs (copied : list Page) :
  h <> src ->
  Forall2 (fun idx p => 0 <= idx /\ getPages ps !! Z.to_nat idx = Some p)
          idxs copied ->
  forall w acc (d : PDFDocument),
    docs w !! src = Some ps -> docs w !! h = Some acc ->
    getPages d = acc ++ copied ->
    forOf idxs
          (fun pageIndex =>
             bind (copyPages h src pageIndex) (fun page => addPage h page)) w
    = (Ok tt, withDocs w (<[h := d]> (docs w))).
Proof.
  intros Hne. induction 1 as [|idx p idxs copied [Hi Hp] _ IH];
    intros w acc d Hs Hh Hd.
  - simpl. unfold ret, withDocs. rewrite app_nil_r in Hd.
    apply document_eq in Hd as ->.
    rewrite list_insert_id by exact Hh. now destruct w.
  - simpl forOf.
    destruct (document_Some (acc ++ [p])) as (d1 & _ & Hd1).
    { apply fits_le. pose proof (proj1 (fits_le d) (pages_fit d)) as Hfit.
      rewrite Hd in Hfit. rewrite !length_app in *. simpl in *. lia. }
    rewrite (bind_ok _ _ _ _ _
               (copy_one w src h ps acc idx p d1 Hne Hs Hh Hi Hp Hd1)).
    assert (Hlt : (h < length (docs w))%nat) by (eapply lookup_lt_Some; eauto).
    rewrite (IH _ d1 d); simpl.
    + unfold withDocs. simpl. now rewrite list_insert_insert_eq.
    + rewrite list_lookup_insert_ne by exact Hne. exact Hs.
    + now rewrite list_lookup_insert_eq.
    + rewrite Hd, Hd1. now rewrite <- app_assoc.
Qed.

(** The indexes built by [Array.from] for a range inside the document
    are those of consecutive pages. *)
Lemma range_pages l startPage n a :
  1 <= startPage ->
  (Z.to_nat (startPage - 1) + a + n <= length l)%nat ->
  Forall2 (fun idx p => 0 <= idx /\ l !! Z.to_nat idx = Some p)
          (map (fun i => Z.of_nat i + startPage - 1) (seq a n))
          (take n (drop (Z.to_nat (startPage - 1) + a) l)).
Proof.
  intros Hs. revert a. induction n as [|n IH]; intros a Hlen.
  - constructor.
  - destruct (lookup_lt_is_Some_2 l (Z.to_nat (startPage - 1) + a))
      as [p Hp]; [lia|].
    rewrite (drop_S _ _ _ Hp). simpl. constructor.
    + split; [lia|].
      now replace (Z.to_nat (Z.of_nat a + startPage - 1))
        with (Z.to_nat (startPage - 1) + a)%nat by lia.
    + replace (S (Z.to_nat (startPage - 1) + a))
        with (Z.to_nat (startPage - 1) + S a)%nat by lia.
      apply IH. lia.
Qed.

End ExtractFacts.

(** C4.  For [1 <= startPage <= endPage <= N], [extractPages] returns a
    new document holding the pages [startPage .. endPage] of the source, in
    their order: [endPage - startPage + 1] pages, page [i] of the result
    being page [startPage + i] of the source (from 0).  The source, every
    other document and the vault stay as they were. *)
Theorem extractPages_range (w : World) (src : PdfLib.handle)
        (ps : PDFDocument) (startPage endPage : Z) :
  docs w !! src = Some ps ->
  1 <= startPage -> startPage <= endPage ->
  endPage <= PdfLib.getPageCount src w ->
  let newDoc := length (docs w) in
  let pages := pageRange ps startPage endPage in
  PDFProcessor.extractPages src startPage endPage w
  = (Ok newDoc, withDocs w (docs w ++ [pages])) /\
  newDoc <> src /\
  getPages pages
  = take (Z.to_nat (endPage - startPage + 1))
         (drop (Z.to_nat (startPage - 1)) ps) /\
  Z.of_nat (length pages) = endPage - startPage + 1 /\
  (forall i : nat,
      Z.of_nat i < endPage - startPage + 1 ->
      getPages pages !! i = getPages ps !! (Z.to_nat (startPage - 1) + i)%nat) /\
  (docs w ++ [pages]) !! src = Some ps.
Proof.
  intros Hsrc H1 H2 H3 newDoc pages.
  unfold PdfLib.getPageCount in H3.
  rewrite (deref_known _ _ _ Hsrc) in H3.
  pose proof (proj1 (fits_le ps) (pages_fit ps)) as Hfit.
  assert (Hlt : (src < length (docs w))%nat) by (eapply lookup_lt_Some; eauto).
  assert (Hne : newDoc <> src) by (unfold newDoc; lia).
  assert (Hpages : getPages pages
                   = take (Z.to_nat (endPage - startPage + 1))
                          (drop (Z.to_nat (startPage - 1)) ps))
    by apply pageRange_pages.
  split; [|split; [exact Hne|split; [exact Hpages|split; [|split]]]].
  - rewrite extractPages_small by lia.
    unfold bind at 1. unfold PdfLib.create. fold newDoc.
    set (w1 := mkWorld _ _ _ _ _).
    assert (Hlen : (Z.to_nat (startPage - 1) + 0
                    + Z.to_nat (endPage - startPage + 1) <= length ps)%nat)
      by lia.
    pose proof (range_pages ps startPage _ 0%nat H1 Hlen) as Hrange.
    rewrite Nat.add_0_r in Hrange.
    pose proof (copy_loop src newDoc ps _ _ Hne Hrange w1
                          PdfLib.emptyDocument pages) as Hloop.
    assert (Hs1 : docs w1 !! src = Some ps)
      by (unfold w1; simpl; now apply lookup_app_l_Some).
    assert (Hn1 : docs w1 !! newDoc = Some PdfLib.emptyDocument).
    { unfold w1, newDoc. simpl.
      rewrite lookup_app_r by lia. now rewrite Nat.sub_diag. }
    rewrite (bind_ok _ _ _ _ _ (Hloop Hs1 Hn1 Hpages)).
    unfold ret, withDocs, w1. simpl. f_equal. f_equal.
    unfold newDoc.
    replace (length (docs w)) with (length (docs w) + 0)%nat at 1 by lia.
    now rewrite insert_app_r.
  - rewrite Hpages, length_take, length_drop. lia.
  - intros i Hi. rewrite Hpages.
    rewrite lookup_take_lt by lia. apply lookup_drop.
  - now apply lookup_app_l_Some.
Qed.

Lemma extractPages_range_witness :
  PDFProcessor.extractPages 0 3 5 tenPages
  = (Ok 1%nat,
     withDocs tenPages
       (docs tenPages
          ++ [mkDocument [page Byte.x03; page Byte.x04; page Byte.x05] I])).
Proof.
  assert (H1 : (1 <= 3)%Z) by lia.
  assert (H2 : (3 <= 5)%Z) by lia.
  assert (H3 : (5 <= PdfLib.getPageCount 0 tenPages)%Z) by (vm_compute; discriminate).
  pose proof (extractPages_range tenPages 0%nat _ 3 5 eq_refl H1 H2 H3) as H.
  cbv zeta in H. destruct H as [H _]. exact H.
Defined.

Section ExtractNoCheck.

Import PdfLib.

Implicit Types (w : World) (ps acc : PDFDocument).

Lemma onlyDoc_refl h w : onlyDoc h w w.
Proof. repeat split. Qed.

Lemma onlyDoc_trans h w1 w2 w3 :
  onlyDoc h w1 w2 -> onlyDoc h w2 w3 -> onlyDoc h w1 w3.
Proof.
  intros (A1 & A2 & A3 & A4 & A5) (B1 & B2 & B3 & B4 & B5).
  repeat split; try congruence. intros d Hd.
  now rewrite (B5 d Hd), (A5 d Hd).
Qed.

Lemma addPage_onlyDoc h (p : Page) w r w' :
  addPage h p w = (r, w') -> onlyDoc h w w'.
Proof.
  unfold addPage. destruct (document _).
  - intros [= _ <-]. repeat split. simpl. intros d Hd.
    now apply list_lookup_insert_ne.
  - intros [= _ <-]. apply onlyDoc_refl.
Qed.

Lemma copy_body_onlyDoc h src idx w r w' :
  bind (copyPages h src idx) (fun page => addPage h page) w = (r, w') ->
  onlyDoc h w w'.
Proof.
  unfold bind, copyPages.
  destruct (if idx <? 0 then None else getPages (deref src w) !! Z.to_nat idx).
  - apply addPage_onlyDoc.
  - intros [= _ <-]. apply onlyDoc_refl.
Qed.

Lemma copy_loop_onlyDoc h src idxs :
  forall w r w',
    forOf idxs
          (fun pageIndex =>
             bind (copyPages h src pageIndex) (fun page => addPage h page)) w
    = (r, w') ->
    onlyDoc h w w'.
Proof.
  induction idxs as [|idx idxs IH]; intros w r w'; simpl.
  - intros [= _ <-]. apply onlyDoc_refl.
  - unfold bind at 1.
    destruct (bind (copyPages h src idx) _ w) as [[[]|e] w1] eqn:E;
      apply copy_body_onlyDoc in E.
    + intros H. apply IH in H. eapply onlyDoc_trans; eauto.
    + now intros [= _ <-].
Qed.


(** An index outside the source stops the loop with the error of
    pdf-lib; the document [h] then holds the pages copied so far. *)
Lemma copy_loop_stops h src ps idxs :
  h <> src ->
  Exists (fun idx => idx < 0 \/ Z.of_nat (length ps) <= idx) idxs ->
  forall w acc,
    docs w !! src = Some ps -> docs w !! h = Some acc ->
    Z.of_nat (length acc + length idxs) <= MAX_ARRAY_LENGTH ->
    exists w',
      forOf idxs
            (fun pageIndex =>
               bind (copyPages h src pageIndex) (fun page => addPage h page))
            w
      = (Err NOT_A_PAGE, w').
Proof.
  intros Hne. induction idxs as [|idx idxs IH]; intros Hex w acc Hs Hh Hfit.
  - inversion Hex.
  - simpl forOf.
    destruct (decide (idx < 0 \/ Z.of_nat (length ps) <= idx)) as [Hbad|Hok].
    + exists w. apply bind_err. unfold bind, copyPages.
      rewrite (deref_known _ _ _ Hs).
      destruct (Z.ltb_spec idx 0); [reflexivity|].
      rewrite lookup_ge_None_2 by lia. reflexivity.
    + destruct (lookup_lt_is_Some_2 ps (Z.to_nat idx)) as [p Hp]; [lia|].
      destruct (document_Some (acc ++ [p])) as (d1 & _ & Hd1).
      { apply fits_le. rewrite length_app. simpl in *. lia. }
      rewrite (bind_ok _ _ _ _ _
                 (copy_one w src h ps acc idx p d1 Hne Hs Hh ltac:(lia) Hp Hd1)).
      apply Exists_cons in Hex as [Hex|Hex]; [contradiction|].
      apply (IH Hex _ d1); unfold withDocs; simpl.
      * now rewrite list_lookup_insert_ne.
      * apply list_lookup_insert_eq. eapply lookup_lt_Some; eauto.
      * rewrite Hd1, length_app. simpl in *. lia.
Qed.

Lemma extractPages_onlyNew w src startPage endPage r w' :
  PDFProcessor.extractPages src startPage endPage w = (r, w') ->
  files w' = files w /\ dirs w' = dirs w /\
  forall d, (d < length (docs w))%nat -> docs w' !! d = docs w !! d.
Proof.
  destruct (Z.le_gt_cases (endPage - startPage + 1) MAX_ARRAY_LENGTH)
    as [Hsmall|Hlarge].
  2: { rewrite extractPages_large by exact Hlarge. now intros [= _ <-]. }
  rewrite extractPages_small by exact Hsmall.
  unfold bind at 1. unfold create.
  set (w1 := mkWorld _ _ _ _ _). unfold bind.
  destruct (forOf _ _ w1) as [[[]|e] w2] eqn:E;
    apply copy_loop_onlyDoc in E as (E1 & E2 & _ & _ & E5);
    intros [= _ <-]; (split; [exact E1|split; [exact E2|]]);
    intros d Hd; rewrite E5 by lia; unfold w1; simpl;
    now apply lookup_app_l.
Qed.



End ExtractNoCheck.




(** A range of [2^32] pages: [Array.from] throws, and no document is
    created. *)
Example extractPages_oversized_range :
  PDFProcessor.extractPages 0 1 4294967296 tenPages
  = (Err (js "Invalid array length"), tenPages).
Proof. vm_compute. reflexivity. Qed.

(** ** What the adapter calls do to the files *)

Section AdapterFacts.

Import Adapter.

Implicit Types (w : World) (p q : jsstring).

Lemma sameFiles_refl w : sameFiles w w.
Proof. repeat split. Qed.

Lemma sameFiles_trans w1 w2 w3 :
  sameFiles w1 w2 -> sameFiles w2 w3 -> sameFiles w1 w3.
Proof. intros (? & ? & ?) (? & ? & ?). repeat split; congruence. Qed.

Lemma exists_inv p w r w' : exists_ p w = (r, w') -> sameFiles w w'.
Proof.
  intros (w1 & Hf & Hd & Hc & [(e & _ & ->)|[= _ <-]])%call_inv;
    repeat split; assumption.
Qed.

Lemma exists_ok p w b w' : exists_ p w = (Ok b, w') -> b = present p w'.
Proof.
  intros (w1 & _ & _ & _ & [(e & [=] & _)|[= <- <-]])%call_inv. reflexivity.
Qed.

Lemma mkdir_inv p w r w' : mkdir p w = (r, w') -> sameFiles w w'.
Proof.
  intros (w1 & Hf & Hd & Hc & [(e & _ & ->)|[= _ <-]])%call_inv;
    repeat split; assumption.
Qed.

Lemma write_inv p data w r w' :
  writeBinary p data w = (r, w') ->
  docs w' = docs w /\ codec w' = codec w /\
  ((r = Ok tt /\ files w' = <[p := data]> (files w)) \/
   ((exists e, r = Err e) /\ files w' = files w)).
Proof.
  intros (w1 & Hf & Hd & Hc & [(e & -> & ->)|[= <- <-]])%call_inv.
  - repeat split; try assumption. right. eauto.
  - repeat split; try assumption. left. simpl. now rewrite Hf.
Qed.

Lemma remove_inv p w r w' :
  remove p w = (r, w') ->
  docs w' = docs w /\ codec w' = codec w /\
  ((r = Ok tt /\ is_Some (files w !! p) /\ files w' = delete p (files w)) \/
   ((exists e, r = Err e) /\ files w' = files w)).
Proof.
  intros (w1 & Hf & Hd & Hc & [(e & -> & ->)|H])%call_inv.
  - repeat split; try assumption. right. eauto.
  - destruct (files w1 !! p) as [old|] eqn:E; injection H as <- <-.
    + repeat split; try assumption. left. simpl. rewrite <- Hf.
      rewrite E. eauto.
    + repeat split; try assumption. right. eauto.
Qed.

(** Writing or removing another path is not seen at [p]. *)
Lemma write_other p q data w r w' :
  q <> p -> writeBinary q data w = (r, w') ->
  files w' !! p = files w !! p /\ docs w' = docs w /\ codec w' = codec w.
Proof.
  intros Hne (Hd & Hc & [[_ ->]|[_ ->]])%write_inv;
    repeat split; try assumption. now apply lookup_insert_ne.
Qed.

Lemma remove_other p q w r w' :
  q <> p -> remove q w = (r, w') ->
  files w' !! p = files w !! p /\ docs w' = docs w /\ codec w' = codec w.
Proof.
  intros Hne (Hd & Hc & [(_ & _ & ->)|[_ ->]])%remove_inv;
    repeat split; try assumption. now apply lookup_delete_ne.
Qed.

(** The clean-up of the temporary file never fails and is not seen at [p]. *)
Lemma cleanup_inv p q w r w' :
  q <> p ->
  try_catch (remove q) (fun _ => ret tt) w = (r, w') ->
  r = Ok tt /\
  files w' !! p = files w !! p /\ docs w' = docs w /\ codec w' = codec w.
Proof.
  intros Hne. unfold try_catch.
  destruct (remove q w) as [[[]|e] w1] eqn:E;
    apply (remove_other p) in E; try assumption;
    intros [= <- <-]; split; [reflexivity|exact E|reflexivity|exact E].
Qed.

Lemma temp_ne p : p ++ js ".temp" <> p.
Proof.
  intros H. apply (f_equal length) in H. rewrite length_app in H.
  change (length (js ".temp")) with 5%nat in H. lia.
Qed.

Lemma validate_inv outputPath w r w' :
  SafetyUtils.validateAndCreatePath outputPath w = (r, w') ->
  sameFiles w w' /\
  forall safePath,
    r = Ok safePath ->
    safePath = safePathOf outputPath /\
    SafetyUtils.isPathInVault outputPath = true.
Proof.
  unfold SafetyUtils.validateAndCreatePath, safePathOf, pop.
  destruct (SafetyUtils.isPathInVault outputPath);
    cbn beta iota delta [negb].
  2: { intros [= <- <-]. split; [apply sameFiles_refl|discriminate]. }
  set (filename := match last (split outputPath SLASH) with
                   | Some (c :: f) => c :: f
                   | _ => js "output"
                   end).
  unfold bind.
  destruct (join (removelast (split outputPath SLASH)) [SLASH])
    as [|c dir].
  - unfold ret. intros [= <- <-]. split; [apply sameFiles_refl|].
    now intros ? [= <-].
  - unfold try_catch, bind, throw, ret.
    destruct (exists_ (c :: dir) w) as [[[|]|e] w1] eqn:E1;
      pose proof (exists_inv _ _ _ _ E1) as S1;
      cbn beta iota delta [negb].
    + intros [= <- <-]. split; [exact S1|]. now intros ? [= <-].
    + destruct (mkdir (c :: dir) w1) as [[[]|e] w2] eqn:E2;
        pose proof (mkdir_inv _ _ _ _ E2) as S2;
        intros [= <- <-];
        (split; [eapply sameFiles_trans; eauto|]).
      * now intros ? [= <-].
      * discriminate.
    + intros [= <- <-]. split; [exact S1|discriminate].
Qed.

End AdapterFacts.

(** ** The save protocol *)

Section SaveFacts.

Import Adapter.

Implicit Types (w : World) (sp : jsstring).

Lemma savePDF_unfold doc outputPath :
  PDFProcessor.savePDF doc outputPath
  = (safePath <- SafetyUtils.validateAndCreatePath outputPath ;;
     try_catch
       (writeSteps doc safePath (safePath ++ js ".temp"))
       (fun error =>
          try_catch (remove (safePath ++ js ".temp")) (fun _ => ret tt) ;;;
          throw (js "Failed to save PDF: " ++ error)) ;;;
     try_catch
       (finalExists <- exists_ safePath ;;
        if negb finalExists then throw (js "File was not saved successfully")
        else ret tt)
       (fun error => throw (js "Failed to verify saved PDF: " ++ error))).
Proof. reflexivity. Qed.

(** The [try] block ends with the whole buffer at [sp], or fails with
    [sp] as it was, or fails after having removed the file at [sp]. *)
Lemma writeSteps_inv doc sp w r w' :
  writeSteps doc sp (sp ++ js ".temp") w = (r, w') ->
  match r with
  | Ok _ =>
      exists pdfBytes,
        serialize w doc = Ok pdfBytes /\ files w' !! sp = Some pdfBytes
  | Err _ =>
      files w' !! sp = files w !! sp \/
      (is_Some (files w !! sp) /\ files w' !! sp = None)
  end.
Proof.
  unfold writeSteps, bind, PdfLib.save. fold (serialize w doc).
  destruct (serialize w doc) as [pdfBytes|e0]; [|intros [= <- <-]; now left].
  destruct (writeBinary _ pdfBytes w) as [[[]|e1] w1] eqn:E1;
    apply (write_other sp) in E1 as (F1 & _ & _); try apply temp_ne.
  2: { intros [= <- <-]. now left. }
  destruct (exists_ sp w1) as [[ex|e2] w2] eqn:E2;
    apply exists_inv in E2 as (F2 & _ & _).
  2: { intros [= <- <-]. left. congruence. }
  assert (Hfinal : forall w3,
             files w3 !! sp = files w !! sp \/
             (is_Some (files w !! sp) /\ files w3 !! sp = None) ->
             (let (r0, w'0) := writeBinary sp pdfBytes w3 in
              match r0 with
              | Ok _ =>
                  try_catch (remove (sp ++ js ".temp")) (fun _ => ret tt) w'0
              | Err e => (Err e, w'0)
              end) = (r, w') ->
             match r with
             | Ok _ =>
                 exists b, Ok pdfBytes = Ok b /\ files w' !! sp = Some b
             | Err _ =>
                 files w' !! sp = files w !! sp \/
                 (is_Some (files w !! sp) /\ files w' !! sp = None)
             end).
  { intros w3 H3.
    destruct (writeBinary sp pdfBytes w3) as [[[]|e4] w4] eqn:E4;
      apply write_inv in E4 as (_ & _ & [[[=] F4]|[[e [=]] F4]]).
    - intros (-> & F5 & _)%(cleanup_inv sp); [|apply temp_ne].
      exists pdfBytes. split; [reflexivity|].
      rewrite F5, F4. apply lookup_insert_eq.
    - intros [= <- <-]. rewrite F4. exact H3. }
  destruct ex.
  - destruct (remove sp w2) as [[[]|e3] w3] eqn:E3;
      apply remove_inv in E3 as (_ & _ & [([=] & S3 & F3)|[[e [=]] F3]]).
    + apply Hfinal. right. split; [now rewrite <- F1, <- F2|].
      rewrite F3. apply lookup_delete_eq.
    + intros [= <- <-]. left. congruence.
  - apply Hfinal. left. unfold ret. congruence.
Qed.

(** The [try] block fails with [sp] as it was, unless every step up to
    and including the removal of the file at [sp] went through and the
    final write is the step that was rejected. *)
Lemma writeSteps_err doc sp w e w' :
  writeSteps doc sp (sp ++ js ".temp") w = (Err e, w') ->
  files w' !! sp = files w !! sp \/
  exists pdfBytes w2 w3 w4,
    serialize w doc = Ok pdfBytes /\
    writeBinary (sp ++ js ".temp") pdfBytes w = (Ok tt, w2) /\
    exists_ sp w2 = (Ok true, w3) /\
    remove sp w3 = (Ok tt, w4) /\
    writeBinary sp pdfBytes w4 = (Err e, w') /\
    is_Some (files w !! sp) /\ files w' !! sp = None.
Proof.
  unfold writeSteps, bind, PdfLib.save. fold (serialize w doc).
  destruct (serialize w doc) as [pdfBytes|e0]; [|intros [= <- <-]; now left].
  destruct (writeBinary _ pdfBytes w) as [[[]|e1] w1] eqn:E1;
    pose proof (write_other sp _ _ _ _ _ (temp_ne sp) E1) as (F1 & _ & _).
  2: { intros [= <- <-]. now left. }
  destruct (exists_ sp w1) as [[ex|e2] w2] eqn:E2;
    pose proof (exists_inv _ _ _ _ E2) as (F2 & _ & _).
  2: { intros [= <- <-]. left. congruence. }
  assert (Hclean : forall w4 r,
             try_catch (remove (sp ++ js ".temp")) (fun _ => ret tt) w4
             = (r, w') -> r <> Err e).
  { intros w4 r (-> & _)%(cleanup_inv sp); [discriminate|apply temp_ne]. }
  destruct ex.
  - destruct (remove sp w2) as [[[]|e3] w3] eqn:E3;
      pose proof (remove_inv _ _ _ _ E3)
        as (_ & _ & [([=] & S3 & F3)|[[e' [=]] F3]]).
    + destruct (writeBinary sp pdfBytes w3) as [[[]|e4] w4] eqn:E4.
      * intros H. now apply Hclean in H.
      * intros [= <- <-]. right. exists pdfBytes, w1, w2, w3.
        repeat split; try assumption; try reflexivity.
        -- now rewrite <- F1, <- F2.
        -- apply write_inv in E4 as (_ & _ & [[[=] _]|[_ F4]]).
           rewrite F4, F3. apply lookup_delete_eq.
    + intros [= <- <-]. left. congruence.
  - unfold ret at 1.
    destruct (writeBinary sp pdfBytes w2) as [[[]|e4] w4] eqn:E4.
    + intros H. now apply Hclean in H.
    + intros [= <- <-]. left.
      apply write_inv in E4 as (_ & _ & [[[=] _]|[_ F4]]). congruence.
Qed.

End SaveFacts.

(** C2.  When [savePDF] reports success, the path was accepted, the
    document was serialized, and the file at the validated final path
    holds exactly those bytes: reading it back through the adapter gives
    them. *)
Theorem savePDF_success (doc : PdfLib.handle) (outputPath : jsstring)
        (w w' : World) :
  PDFProcessor.savePDF doc outputPath w = (Ok tt, w') ->
  SafetyUtils.isPathInVault outputPath = true /\
  exists pdfBytes,
    serialize w doc = Ok pdfBytes /\
    files w' !! safePathOf outputPath = Some pdfBytes /\
    (forall data w'',
        Adapter.readBinary (safePathOf outputPath) w' = (Ok data, w'') ->
        data = pdfBytes) /\
    (pending w' = [] ->
     Adapter.readBinary (safePathOf outputPath) w' = (Ok pdfBytes, w')).
Proof.
  rewrite savePDF_unfold. unfold bind at 1.
  destruct (SafetyUtils.validateAndCreatePath outputPath w)
    as [[sp|e] w1] eqn:E1; [|discriminate].
  apply validate_inv in E1 as ((F1 & D1 & C1) & Hsp).
  destruct (Hsp sp eq_refl) as [-> Hv]. clear Hsp.
  set (sp := safePathOf outputPath).
  unfold bind, try_catch at 1.
  destruct (writeSteps doc sp (sp ++ js ".temp") w1) as [[[]|e] w2] eqn:E2.
  - apply writeSteps_inv in E2 as (pdfBytes & Hser & F2).
    unfold try_catch, bind.
    destruct (Adapter.exists_ sp w2) as [[[|]|e] w3] eqn:E3;
      try discriminate.
    apply exists_inv in E3 as (F3 & _ & _). unfold ret. intros [= <-].
    split; [exact Hv|]. exists pdfBytes.
    assert (Hfile : files w3 !! sp = Some pdfBytes) by now rewrite F3.
    split; [|split; [exact Hfile|split]].
    + unfold serialize, PdfLib.deref in *. now rewrite <- D1, <- C1.
    + intros data w'' (w4 & F4 & _ & _ & [(e & [=] & _)|H])%call_inv.
      rewrite F4, Hfile in H. now injection H as <- _.
    + intros Hcalm. unfold Adapter.readBinary.
      rewrite call_calm by exact Hcalm. now rewrite Hfile.
  - destruct (try_catch _ _ w2) as [[[]|e'] w3]; discriminate.
Qed.

Lemma savePDF_success_witness :
  files (snd (PDFProcessor.savePDF 0 (js "split/out.pdf") (vaultWith ∅ [])))
    !! js "split/out.pdf"
  = Some [Byte.x01; Byte.x02].
Proof.
  assert (E : PDFProcessor.savePDF 0 (js "split/out.pdf") (vaultWith ∅ [])
              = (Ok tt,
                 snd (PDFProcessor.savePDF 0 (js "split/out.pdf")
                                           (vaultWith ∅ []))))
    by (vm_compute; reflexivity).
  destruct (savePDF_success _ _ _ _ E) as (_ & pdfBytes & Hs & Hf & _).
  vm_compute in Hs. injection Hs as <-. exact Hf.
Defined.

(** C1, as the code has it.  When [savePDF] reports a failure, the file at
    the final path is never a part of the buffer.  It is as it was before
    the call, which is so whenever the failure comes before the final
    write: from the path check, [doc.save()], the write of the temporary
    file, the existence check or the removal.  Or it was there and has been
    removed: then all of these steps went through, the removal included,
    and the final write is the call that was rejected.  Or it holds the
    whole serialized buffer: then the [try] block went through and the
    existence check that follows it was rejected. *)
Theorem savePDF_failure (doc : PdfLib.handle) (outputPath : jsstring)
        (w w' : World) (m : jsstring) :
  PDFProcessor.savePDF doc outputPath w = (Err m, w') ->
  let finalPath := safePathOf outputPath in
  let tempPath := finalPath ++ js ".temp" in
  files w' !! finalPath = files w !! finalPath \/
  (exists pdfBytes e w1 w2 w3 w4 w5,
      SafetyUtils.validateAndCreatePath outputPath w = (Ok finalPath, w1) /\
      serialize w doc = Ok pdfBytes /\
      Adapter.writeBinary tempPath pdfBytes w1 = (Ok tt, w2) /\
      Adapter.exists_ finalPath w2 = (Ok true, w3) /\
      Adapter.remove finalPath w3 = (Ok tt, w4) /\
      Adapter.writeBinary finalPath pdfBytes w4 = (Err e, w5) /\
      m = js "Failed to save PDF: " ++ e /\
      is_Some (files w !! finalPath) /\ files w' !! finalPath = None) \/
  (exists pdfBytes e w1 w2,
      SafetyUtils.validateAndCreatePath outputPath w = (Ok finalPath, w1) /\
      serialize w doc = Ok pdfBytes /\
      writeSteps doc finalPath tempPath w1 = (Ok tt, w2) /\
      Adapter.exists_ finalPath w2 = (Err e, w') /\
      m = js "Failed to verify saved PDF: " ++ e /\
      files w' !! finalPath = Some pdfBytes).
Proof.
  intros H finalPath tempPath. revert H.
  rewrite savePDF_unfold. unfold bind at 1.
  destruct (SafetyUtils.validateAndCreatePath outputPath w)
    as [[sp|e] w1] eqn:E1;
    pose proof (validate_inv _ _ _ _ E1) as ((F1 & D1 & C1) & Hsp).
  2: { intros [= <- <-]. left. now rewrite F1. }
  destruct (Hsp sp eq_refl) as [-> _]. clear Hsp.
  fold finalPath in E1 |- *. fold tempPath.
  assert (Hser : serialize w1 doc = serialize w doc)
    by (unfold serialize, PdfLib.deref; now rewrite D1, C1).
  unfold bind, try_catch at 1.
  destruct (writeSteps doc finalPath tempPath w1) as [[[]|e] w2] eqn:E2.
  - pose proof (writeSteps_inv _ _ _ _ _ E2) as (pdfBytes & Hs & F2).
    unfold try_catch, bind, throw, ret.
    destruct (Adapter.exists_ finalPath w2) as [[ex|e] w3] eqn:E3;
      pose proof (exists_inv _ _ _ _ E3) as (F3 & _ & _).
    + apply exists_ok in E3. unfold Adapter.present in E3.
      rewrite F3, F2 in E3. rewrite bool_decide_true in E3 by eauto.
      simpl in E3. subst ex. discriminate.
    + intros [= <- <-]. right; right. exists pdfBytes, e, w1, w2.
      repeat split; try assumption; try reflexivity.
      * now rewrite <- Hser.
      * now rewrite F3.
  - unfold throw.
    destruct (try_catch (Adapter.remove tempPath) (fun _ => ret tt) w2)
      as [r3 w3] eqn:E3.
    apply (cleanup_inv finalPath) in E3 as (-> & F3 & _); [|apply temp_ne].
    intros [= <- <-]. rewrite F3, <- F1.
    apply writeSteps_err in E2
      as [E2|(pdfBytes & u2 & u3 & u4 & Hs & W1 & X & R & W2 & S2 & N2)];
      [now left|].
    right; left. exists pdfBytes, e, w1, u2, u3, u4, w2.
    repeat split; try assumption; try reflexivity.
    now rewrite <- Hser.
Qed.

Lemma savePDF_failure_witness :
  let w := diskFull in
  let w' := snd (PDFProcessor.savePDF 0 (js "out.pdf") diskFull) in
  let m := js "Failed to save PDF: " ++ ENOSPC in
  let finalPath := safePathOf (js "out.pdf") in
  let tempPath := finalPath ++ js ".temp" in
  files w' !! finalPath = files w !! finalPath \/
  (exists pdfBytes e w1 w2 w3 w4 w5,
      SafetyUtils.validateAndCreatePath (js "out.pdf") w = (Ok finalPath, w1) /\
      serialize w 0%nat = Ok pdfBytes /\
      Adapter.writeBinary tempPath pdfBytes w1 = (Ok tt, w2) /\
      Adapter.exists_ finalPath w2 = (Ok true, w3) /\
      Adapter.remove finalPath w3 = (Ok tt, w4) /\
      Adapter.writeBinary finalPath pdfBytes w4 = (Err e, w5) /\
      m = js "Failed to save PDF: " ++ e /\
      is_Some (files w !! finalPath) /\ files w' !! finalPath = None) \/
  (exists pdfBytes e w1 w2,
      SafetyUtils.validateAndCreatePath (js "out.pdf") w = (Ok finalPath, w1) /\
      serialize w 0%nat = Ok pdfBytes /\
      writeSteps 0%nat finalPath tempPath w1 = (Ok tt, w2) /\
      Adapter.exists_ finalPath w2 = (Err e, w') /\
      m = js "Failed to verify saved PDF: " ++ e /\
      files w' !! finalPath = Some pdfBytes).
Proof.
  assert (E : PDFProcessor.savePDF 0 (js "out.pdf") diskFull
              = (Err (js "Failed to save PDF: " ++ ENOSPC),
                 snd (PDFProcessor.savePDF 0 (js "out.pdf") diskFull)))
    by (vm_compute; reflexivity).
  exact (savePDF_failure _ _ _ _ _ E).
Defined.

(** C1 does not hold as stated.  With a full disk at the final write, the
    file that was at [out.pdf] before the call is gone after it; and when
    only the check after the final write fails, the file has the new
    content, not the old one.  Both calls report a failure. *)
Lemma savePDF_failure_changes_file :
  files diskFull !! js "out.pdf" = Some oldBytes /\
  fst (PDFProcessor.savePDF 0 (js "out.pdf") diskFull)
  = Err (js "Failed to save PDF: ENOSPC: no space left on device") /\
  files (snd (PDFProcessor.savePDF 0 (js "out.pdf") diskFull)) !! js "out.pdf"
  = None /\
  fst (PDFProcessor.savePDF 0 (js "out.pdf") checkFails)
  = Err (js "Failed to verify saved PDF: EIO: i/o error") /\
  files (snd (PDFProcessor.savePDF 0 (js "out.pdf") checkFails))
    !! js "out.pdf"
  = Some [Byte.x01; Byte.x02].
Proof. repeat split; vm_compute; reflexivity. Qed.

(** ** The gate before overwriting *)

Section GateFacts.

Import Adapter.

Implicit Types (w : World) (p : jsstring).

Lemma exists_calm p w :
  pending w = [] -> exists_ p w = (Ok (present p w), w).
Proof. intros H. unfold exists_. now rewrite call_calm. Qed.

Lemma mkdir_calm p w :
  pending w = [] ->
  mkdir p w
  = (Ok tt,
     mkWorld (files w) ({[p]} ∪ dirs w) (docs w) (codec w) (pending w)).
Proof. intros H. unfold mkdir. now rewrite call_calm. Qed.

Lemma validate_calm outputPath w :
  SafetyUtils.isPathInVault outputPath = true -> pending w = [] ->
  SafetyUtils.validateAndCreatePath outputPath w
  = (Ok (safePathOf outputPath), provided (directoryOf outputPath) w).
Proof.
  intros Hv Hcalm.
  unfold SafetyUtils.validateAndCreatePath, safePathOf, directoryOf,
    provided, pop.
  rewrite Hv. cbn beta iota delta [negb].
  destruct (join (removelast (split outputPath SLASH)) [SLASH]) as [|c dir];
    [reflexivity|].
  unfold bind, try_catch. rewrite (exists_calm _ _ Hcalm).
  destruct (present (c :: dir) w); cbn beta iota delta [negb];
    [reflexivity|].
  now rewrite (mkdir_calm _ _ Hcalm).
Qed.

Lemma provided_files d w : files (provided d w) = files w.
Proof.
  unfold provided. destruct d; [reflexivity|].
  now destruct (present _ w).
Qed.

Lemma provided_pending d w : pending (provided d w) = pending w.
Proof.
  unfold provided. destruct d; [reflexivity|].
  now destruct (present _ w).
Qed.

(** Providing the folder does not create anything at the final path. *)
Lemma provided_present outputPath w :
  present (safePathOf outputPath) (provided (directoryOf outputPath) w)
  = present (safePathOf outputPath) w.
Proof.
  unfold provided, safePathOf, directoryOf.
  destruct (join (removelast (split outputPath SLASH)) [SLASH])
    as [|c dir]; [reflexivity|].
  destruct (present (c :: dir) w); [reflexivity|].
  unfold present. simpl files. simpl dirs. f_equal.
  apply bool_decide_ext. rewrite elem_of_union, elem_of_singleton.
  split; [|now right]. intros [H|H]; [|exact H].
  apply (f_equal length) in H. rewrite !length_app in H. simpl in H. lia.
Qed.

End GateFacts.

(** C7, as the code has it.  For a path that [isPathInVault] accepts, in a
    quiet environment, [ensureSafeOutput] gives [true] when nothing is at
    the validated final path, and the answer of the user when something
    is: [true] for Overwrite, [false] for Cancel, and no answer as long as
    none is given.  The files of the vault stay as they were. *)
Theorem ensureSafeOutput_gate (click : option bool) (outputPath : jsstring)
        (w : World) :
  SafetyUtils.isPathInVault outputPath = true ->
  pending w = [] ->
  let finalPath := safePathOf outputPath in
  fst (PDFProcessor.ensureSafeOutput click outputPath w)
  = Ok (if Adapter.present finalPath w then click else Some true) /\
  files (snd (PDFProcessor.ensureSafeOutput click outputPath w)) = files w.
Proof.
  intros Hv Hcalm finalPath.
  unfold PDFProcessor.ensureSafeOutput.
  rewrite (bind_ok _ _ _ _ _ (validate_calm outputPath w Hv Hcalm)).
  rewrite (bind_ok _ _ _ _ _
             (exists_calm _ _
                (eq_trans (provided_pending _ w) Hcalm))).
  rewrite provided_present. fold finalPath.
  destruct (Adapter.present finalPath w); unfold ret; simpl;
    (split; [reflexivity|apply provided_files]).
Qed.

Lemma ensureSafeOutput_gate_witness :
  fst (PDFProcessor.ensureSafeOutput (Some false) (js "out.pdf")
         (vaultWith {[ js "out.pdf" := oldBytes ]} []))
  = Ok (Some false).
Proof.
  assert (Hv : SafetyUtils.isPathInVault (js "out.pdf") = true)
    by (vm_compute; reflexivity).
  assert (Hc : pending (vaultWith {[ js "out.pdf" := oldBytes ]} []) = [])
    by reflexivity.
  exact (proj1 (ensureSafeOutput_gate (Some false) (js "out.pdf") _ Hv Hc)).
Defined.

(** C7 does not hold as stated.  With nothing at [out.pdf] the result is
    [true], not [false]; with a file there and the user choosing Cancel it
    is [false], not [true]. *)
Lemma ensureSafeOutput_not_a_conflict_flag :
  files (vaultWith ∅ []) !! js "out.pdf" = None /\
  fst (PDFProcessor.ensureSafeOutput (Some false) (js "out.pdf")
         (vaultWith ∅ []))
  = Ok (Some true) /\
  files (vaultWith {[ js "out.pdf" := oldBytes ]} []) !! js "out.pdf"
  = Some oldBytes /\
  fst (PDFProcessor.ensureSafeOutput (Some false) (js "out.pdf")
         (vaultWith {[ js "out.pdf" := oldBytes ]} []))
  = Ok (Some false).
Proof. repeat split; vm_compute; reflexivity. Qed.

(** ** Folders *)

Section FolderFacts.

Import SafetyUtils.

Lemma ensureParts_cons part rest cur :
  ensureParts (part :: rest) cur
  = (ex <- Adapter.exists_ (nextPath cur part) ;;
     (if negb ex then Adapter.mkdir (nextPath cur part) else ret tt) ;;;
     ensureParts rest (nextPath cur part)).
Proof. reflexivity. Qed.

Lemma ensureParts_app done more cur w :
  ensureParts (done ++ more) cur w
  = bind (ensureParts done cur)
         (fun _ => ensureParts more (pathAfter done cur)) w.
Proof.
  revert cur w. induction done as [|part done IH]; intros cur w.
  - reflexivity.
  - change (pathAfter (part :: done) cur)
      with (pathAfter done (nextPath cur part)).
    simpl app. rewrite !ensureParts_cons.
    specialize (IH (nextPath cur part)). unfold bind in *.
    destruct (Adapter.exists_ (nextPath cur part) w) as [[ex|e] w1];
      [|reflexivity].
    destruct ((if negb ex then Adapter.mkdir (nextPath cur part)
               else ret tt) w1) as [[[]|e] w2]; [|reflexivity].
    apply IH.
Qed.

End FolderFacts.

(** C6, as the code has it.  [ensureDirectoryExists] does not catch what
    [mkdir] throws.  When the segments before [part] have been gone
    through, the existence check for the next prefix says it is absent and
    [mkdir] is then rejected, by a folder that exists already as by
    anything else, [ensureDirectoryExists] fails with that error, in the
    state the rejected call left: the segments after it are not looked
    at. *)
Theorem mkdir_rejection_propagates (directory : jsstring)
        (done rest : list jsstring) (part : jsstring)
        (w w0 w1 w2 : World) (e : jsstring) :
  directory <> [] ->
  filter (fun part => (0 < length part)%nat) (split directory SLASH)
  = done ++ part :: rest ->
  let currentPath := nextPath (pathAfter done []) part in
  SafetyUtils.ensureParts done [] w = (Ok tt, w0) ->
  Adapter.exists_ currentPath w0 = (Ok false, w1) ->
  Adapter.mkdir currentPath w1 = (Err e, w2) ->
  SafetyUtils.ensureDirectoryExists directory w = (Err e, w2).
Proof.
  intros Hne Hparts currentPath Hdone Hex Hmk.
  unfold SafetyUtils.ensureDirectoryExists.
  destruct directory as [|c directory]; [contradiction|].
  rewrite Hparts, ensureParts_app.
  rewrite (bind_ok _ _ _ _ _ Hdone).
  rewrite ensureParts_cons. fold currentPath.
  rewrite (bind_ok _ _ _ _ _ Hex). simpl negb.
  now rewrite (bind_err _ _ _ _ _ Hmk).
Qed.

Lemma mkdir_rejection_propagates_witness :
  SafetyUtils.ensureDirectoryExists (js "a/b") raced
  = (Err EEXIST,
     snd (Adapter.mkdir (js "a/b")
            (snd (Adapter.exists_ (js "a/b")
                    (snd (SafetyUtils.ensureParts [js "a"] [] raced)))))).
Proof.
  assert (Hne : js "a/b" <> []) by discriminate.
  apply (mkdir_rejection_propagates (js "a/b") [js "a"] [] (js "b") raced
           (snd (SafetyUtils.ensureParts [js "a"] [] raced))
           (snd (Adapter.exists_ (js "a/b")
                   (snd (SafetyUtils.ensureParts [js "a"] [] raced))))
           _ EEXIST Hne);
    vm_compute; reflexivity.
Defined.

(** C6 does not hold as stated.  The folder [a/b] is created by another
    process between the existence check and [mkdir], [mkdir] is rejected
    because the folder exists, and [ensureDirectoryExists] fails with that
    error, although the folder is there; [ensureSafeOutput], which catches
    it, reports no success. *)
Lemma ensureDirectoryExists_race_is_fatal :
  fst (SafetyUtils.ensureDirectoryExists (js "a/b") raced) = Err EEXIST /\
  bool_decide
    (js "a/b" ∈ dirs (snd (SafetyUtils.ensureDirectoryExists (js "a/b") raced)))
  = true /\
  fst (SafetyUtils.ensureSafeOutput (js "a/b/out.pdf") None raced)
  = Ok (SafetyUtils.mkResult false
          (Some (js "Safety check failed: EEXIST: file already exists"))).
Proof. repeat split; vm_compute; reflexivity. Qed.

(** ** The scenarios of the design document *)

(** Scenario A: pages 3 to 5 of a document of ten pages. *)
Example scenario_A :
  PDFProcessor.extractPages 0 3 5 tenPages
  = (Ok 1%nat,
     withDocs tenPages
       (docs tenPages
          ++ [mkDocument [page Byte.x03; page Byte.x04; page Byte.x05] I])).
Proof. vm_compute. reflexivity. Qed.

(** Scenario B: a path that leaves the vault. *)
Example scenario_B :
  PDFProcessor.savePDF 0 (js "../../etc/passwd") tenPages
  = (Err SafetyUtils.INVALID_PATH, tenPages).
Proof. vm_compute. reflexivity. Qed.

(** Scenario C: the dash replaces the colon and the star; the extension
    stays. *)
Example scenario_C :
  SafetyUtils.sanitizePath (js "My:Notes*.pdf") = js "My-Notes-.pdf".
Proof. vm_compute. reflexivity. Qed.

Example sanitize_spaces_and_dashes :
  SafetyUtils.sanitizePath (js "  a   b--c <<x>> .tar.gz")
  = js "a b-c -x- .tar.gz".
Proof. vm_compute. reflexivity. Qed.

Example vault_path_accepted :
  SafetyUtils.isPathInVault (js "/split-pdfs/out.pdf") = true.
Proof. vm_compute. reflexivity. Qed.

(** * Further properties *)

(** ** Which paths [isPathInVault] accepts *)

Section PathShape.

Implicit Types (s p comp : jsstring) (c sep : N).

Lemma split_nonempty s sep : split s sep <> [].
Proof.
  destruct s as [|x s]; simpl; [discriminate|].
  destruct (N.eqb x sep); [discriminate|].
  destruct (split s sep); discriminate.
Qed.

(** A unit that is not the separator is in one of the segments. *)
Lemma split_covers s sep c :
  c ∈ s -> c <> sep -> exists comp, In comp (split s sep) /\ c ∈ comp.
Proof.
  intros Hin Hne. induction s as [|x s IH]; [now apply elem_of_nil in Hin|].
  simpl. destruct (N.eqb_spec x sep) as [->|Hx].
  - apply elem_of_cons in Hin as [->|Hin]; [contradiction|].
    destruct (IH Hin) as (comp & H1 & H2). exists comp. split; [now right|exact H2].
  - destruct (split s sep) as [|seg rest] eqn:E;
      [now apply split_nonempty in E|].
    apply elem_of_cons in Hin as [->|Hin].
    + exists (x :: seg). split; [now left|apply list_elem_of_here].
    + destruct (IH Hin) as (comp & [Heq|H1] & H2).
      * subst comp. exists (x :: seg).
        split; [now left|now apply list_elem_of_further].
      * exists comp. split; [now right|exact H2].
Qed.

Lemma stripLeading_keeps s c sep :
  c ∈ s -> c <> sep -> c ∈ stripLeading sep s.
Proof.
  intros Hin Hne. induction s as [|x s IH]; [exact Hin|].
  simpl. destruct (N.eqb_spec x sep) as [->|Hx]; [|exact Hin].
  apply elem_of_cons in Hin as [->|Hin]; [contradiction|now apply IH].
Qed.

Lemma stripTrailing_keeps s c sep :
  c ∈ s -> c <> sep -> c ∈ stripTrailing sep s.
Proof.
  intros Hin Hne. induction s as [|x s IH]; [exact Hin|].
  simpl. apply elem_of_cons in Hin as [->|Hin].
  - destruct (stripTrailing sep s).
    + destruct (N.eqb_spec x sep); [contradiction|apply list_elem_of_here].
    + apply list_elem_of_here.
  - specialize (IH Hin). destruct (stripTrailing sep s) as [|y t];
      [now apply elem_of_nil in IH|].
    now apply list_elem_of_further.
Qed.

Lemma includes_unit s c : c ∈ s -> includes s [c] = true.
Proof.
  induction 1 as [x s|x y s _ IH].
  - simpl. now rewrite N.eqb_refl.
  - apply includes_cons. exact IH.
Qed.

(** A double separator leaves an empty segment after the first one. *)
Lemma split_double s sep :
  includes s [sep; sep] = true -> In [] (tail (split s sep)).
Proof.
  induction s as [|x s IH]; [discriminate|].
  intros H. simpl in H. apply orb_true_iff in H as [H|H].
  - apply andb_true_iff in H as [->%N.eqb_eq H].
    destruct s as [|y s]; [discriminate|].
    apply andb_true_iff in H as [->%N.eqb_eq _].
    simpl. rewrite !N.eqb_refl. now left.
  - specialize (IH H). simpl. destruct (N.eqb x sep).
    + simpl. destruct (split s sep); [contradiction|now right].
    + destruct (split s sep) as [|seg rest]; [contradiction|exact IH].
Qed.

Lemma accepted_components p :
  SafetyUtils.isPathInVault p = true ->
  forall comp,
    In comp (split (normalized p) SLASH) ->
    comp <> [] /\ includes comp [BACKSLASH] = false /\
    includes comp [COLON] = false.
Proof.
  unfold SafetyUtils.isPathInVault. fold (normalized p).
  destruct (includes p (js "../") || includes p [DOT; DOT; BACKSLASH]);
    [discriminate|].
  intros H comp Hin. rewrite forallb_forall in H. specialize (H comp Hin).
  repeat (apply andb_true_iff in H as [H ?]).
  repeat split.
  - intros ->. discriminate.
  - now apply negb_true_iff.
  - now apply negb_true_iff.
Qed.

Lemma forbidden_unit_rejected p c :
  c ∈ p -> c = COLON \/ c = BACKSLASH -> SafetyUtils.isPathInVault p = false.
Proof.
  intros Hin Hc.
  destruct (SafetyUtils.isPathInVault p) eqn:E; [|reflexivity].
  assert (Hne : c <> SLASH) by (destruct Hc as [-> | ->]; discriminate).
  assert (Hn : c ∈ normalized p).
  { apply stripTrailing_keeps; [|exact Hne].
    apply stripLeading_keeps; [exact Hin|exact Hne]. }
  destruct (split_covers (normalized p) SLASH c Hn Hne) as (comp & H1 & H2).
  destruct (accepted_components p E comp H1) as (_ & Hb & Hcol).
  apply includes_unit in H2. destruct Hc as [-> | ->]; congruence.
Qed.

End PathShape.

(** X1.  A path with a colon or a backslash anywhere is refused by
    [isPathInVault]: [validateAndCreatePath] and [savePDF] throw before
    any adapter call, so the replacement of these two characters by
    [sanitizePath] never applies to a path that is written. *)
Theorem colon_or_backslash_rejected (path : jsstring) (w : World)
        (doc : PdfLib.handle) :
  COLON ∈ path \/ BACKSLASH ∈ path ->
  SafetyUtils.isPathInVault path = false /\
  SafetyUtils.validateAndCreatePath path w
  = (Err SafetyUtils.INVALID_PATH, w) /\
  PDFProcessor.savePDF doc path w = (Err SafetyUtils.INVALID_PATH, w).
Proof.
  intros H.
  assert (Hv : SafetyUtils.isPathInVault path = false).
  { destruct H as [H|H]; eapply forbidden_unit_rejected; eauto. }
  assert (Hp : SafetyUtils.validateAndCreatePath path w
               = (Err SafetyUtils.INVALID_PATH, w)).
  { unfold SafetyUtils.validateAndCreatePath. now rewrite Hv. }
  repeat split; [exact Hv|exact Hp|].
  unfold PDFProcessor.savePDF. now rewrite (bind_err _ _ _ _ _ Hp).
Qed.

Lemma colon_or_backslash_rejected_witness :
  PDFProcessor.savePDF 0 (js "split/My:Notes*.pdf") tenPages
  = (Err SafetyUtils.INVALID_PATH, tenPages).
Proof.
  refine (proj2 (proj2 (colon_or_backslash_rejected
                          (js "split/My:Notes*.pdf") tenPages 0%nat _))).
  left. apply (bool_decide_unpack _). vm_compute. exact I.
Defined.

(** X2.  A path that is empty once its leading and trailing slashes are
    taken away (the empty path, a path of slashes), or that has a double
    slash inside, is refused by [isPathInVault]. *)
Theorem empty_segment_rejected (path : jsstring) :
  normalized path = [] \/ includes (normalized path) [SLASH; SLASH] = true ->
  SafetyUtils.isPathInVault path = false.
Proof.
  intros H.
  destruct (SafetyUtils.isPathInVault path) eqn:E; [|reflexivity].
  pose proof (accepted_components path E) as Hc.
  destruct H as [H|H].
  - rewrite H in Hc. destruct (Hc [] (or_introl eq_refl)) as [Hne _].
    now contradiction Hne.
  - apply split_double in H.
    destruct (split (normalized path) SLASH) as [|seg rest];
      [contradiction|].
    destruct (Hc [] (or_intror H)) as [Hne _]. now contradiction Hne.
Qed.

Lemma empty_segment_rejected_witness :
  SafetyUtils.isPathInVault (js "/split//out.pdf/") = false.
Proof.
  apply empty_segment_rejected. right. vm_compute. reflexivity.
Defined.

(** ** What [sanitizeString] and [sanitizePath] return *)

Section SanitizeShape.

Implicit Types (s t : jsstring) (c r : N) (cls : N -> bool).

Lemma settled_no_double cls r s :
  cls r = true -> settled cls r s = true -> includes s [r; r] = false.
Proof.
  intros Hr. induction s as [|c s IH]; [reflexivity|].
  intros H. simpl in H. apply andb_true_iff in H as [H1 H2].
  simpl. rewrite (IH H2), orb_false_r.
  destruct (N.eqb_spec c r) as [->|Hc]; [|reflexivity]. simpl.
  rewrite Hr in H1. apply andb_true_iff in H1 as [_ H1].
  destruct s as [|d s]; [reflexivity|]. simpl in H1.
  destruct (N.eqb_spec d r) as [->|Hd]; [|reflexivity].
  now rewrite Hr in H1.
Qed.

Lemma settled_units cls r s :
  settled cls r s = true -> Forall (fun c => cls c = true -> c = r) s.
Proof.
  induction s as [|c s IH]; [constructor|].
  intros H. simpl in H. apply andb_true_iff in H as [H1 H2].
  constructor; [|now apply IH].
  intros Hc. rewrite Hc in H1. now apply andb_true_iff in H1 as [->%N.eqb_eq _].
Qed.

Lemma trimEnd_last s c :
  last (trimEnd s) = Some c -> isWhiteSpace c = false.
Proof.
  induction s as [|x s IH]; [discriminate|].
  simpl. destruct (trimEnd s) as [|d t].
  - destruct (isWhiteSpace x) eqn:Hx; [discriminate|].
    now intros [= <-].
  - exact IH.
Qed.

Lemma replaceRuns_length cls r b s :
  (length (replaceRuns cls r b s) <= length s)%nat.
Proof.
  revert b. induction s as [|c s IH]; intros b; simpl; [lia|].
  pose proof (IH true). pose proof (IH false).
  destruct (cls c); [destruct b|]; simpl; lia.
Qed.

Lemma trimStart_length s : (length (trimStart s) <= length s)%nat.
Proof.
  induction s as [|c s IH]; simpl; [lia|].
  destruct (isWhiteSpace c); simpl; lia.
Qed.

Lemma trimEnd_length s : (length (trimEnd s) <= length s)%nat.
Proof.
  induction s as [|c s IH]; simpl; [lia|].
  destruct (trimEnd s); [destruct (isWhiteSpace c)|]; simpl in *; lia.
Qed.

Lemma sanitizeString_length s :
  (length (SafetyUtils.sanitizeString s) <= length s)%nat.
Proof.
  unfold SafetyUtils.sanitizeString, trim.
  etransitivity; [apply trimEnd_length|].
  etransitivity; [apply trimStart_length|].
  etransitivity; [apply replaceRuns_length|].
  etransitivity; [apply replaceRuns_length|].
  unfold replaceEach. now rewrite length_map.
Qed.

End SanitizeShape.

(** X3.  The result of [sanitizeString] has none of the characters of the
    invalid class, no white space other than single ordinary spaces, no two
    dashes in a row, and neither starts nor ends with white space. *)
Theorem sanitizeString_shape (str : jsstring) :
  let r := SafetyUtils.sanitizeString str in
  Forall (fun c => SafetyUtils.isInvalidChar c = false) r /\
  Forall (fun c => isWhiteSpace c = true -> c = SPACE) r /\
  includes r [SPACE; SPACE] = false /\
  includes r [DASH; DASH] = false /\
  headIs isWhiteSpace r = false /\
  (forall c, last r = Some c -> isWhiteSpace c = false).
Proof.
  intros r. destruct (sanitizeString_clean str) as (H1 & H2 & H3 & H4).
  fold r in H1, H2, H3, H4.
  split; [exact H1|].
  split; [exact (settled_units isWhiteSpace SPACE r H2)|].
  split; [exact (settled_no_double isWhiteSpace SPACE r eq_refl H2)|].
  split; [exact (settled_no_double SafetyUtils.isDash DASH r eq_refl H3)|].
  split.
  - rewrite <- H4. unfold trim. apply trimEnd_headIs, trimStart_head.
  - rewrite <- H4. unfold trim. apply trimEnd_last.
Qed.

(** X4.  [sanitizePath] never makes a name longer. *)
Theorem sanitizePath_not_longer (filename : jsstring) :
  (length (SafetyUtils.sanitizePath filename) <= length filename)%nat.
Proof.
  destruct (last_dot_cases filename) as [H|(b & e & -> & He)].
  - rewrite (sanitizePath_no_dot filename H). apply sanitizeString_length.
  - rewrite (sanitizePath_last_dot b e He). rewrite !length_app.
    pose proof (sanitizeString_length b). lia.
Qed.

(** X5.  An invalid character in the result of [sanitizePath] is in the
    extension: the name had a dot, and the character is at or after the
    last dot of the result. *)
Theorem sanitizePath_invalid_only_in_extension (filename : jsstring)
        (i : nat) (c : N) :
  SafetyUtils.sanitizePath filename !! i = Some c ->
  SafetyUtils.isInvalidChar c = true ->
  DOT ∈ filename /\
  lastIndexOf (SafetyUtils.sanitizePath filename) [DOT] <= Z.of_nat i.
Proof.
  intros Hi Hc.
  assert (Hbase : forall b, SafetyUtils.sanitizeString b !! i = Some c -> False).
  { intros b Hb. destruct (sanitizeString_clean b) as (H1 & _).
    rewrite Forall_forall in H1.
    assert (Hin : c ∈ SafetyUtils.sanitizeString b)
      by (apply list_elem_of_lookup; eauto).
    specialize (H1 c Hin). congruence. }
  destruct (last_dot_cases filename) as [H|(b & e & -> & He)].
  - rewrite (sanitizePath_no_dot filename H) in Hi. now apply Hbase in Hi.
  - split; [apply elem_of_app; right; apply list_elem_of_here|].
    rewrite (sanitizePath_last_dot b e He) in *.
    rewrite (lastIndexOf_last_dot _ e He).
    destruct (Nat.lt_ge_cases i (length (SafetyUtils.sanitizeString b)))
      as [Hlt|Hge]; [|lia].
    rewrite lookup_app_l in Hi by exact Hlt. now apply Hbase in Hi.
Qed.

Lemma sanitizePath_invalid_only_in_extension_witness :
  DOT ∈ js "a<b.x:y" /\
  lastIndexOf (SafetyUtils.sanitizePath (js "a<b.x:y")) [DOT] <= Z.of_nat 5.
Proof.
  apply (sanitizePath_invalid_only_in_extension (js "a<b.x:y") 5 COLON);
    vm_compute; reflexivity.
Defined.

(** ** What [validateAndCreatePath] returns and does *)

Section ValidateFacts.

Implicit Types (s d f p : jsstring) (sep : N) (w : World).

Lemma split_no_sep f sep : sep ∉ f -> split f sep = [f].
Proof.
  induction f as [|x f IH]; [reflexivity|].
  intros H. apply not_elem_of_cons in H as [Hx Hf]. simpl.
  destruct (N.eqb_spec x sep) as [->|_]; [contradiction|].
  now rewrite (IH Hf).
Qed.

Lemma split_app_last d f sep :
  sep ∉ f -> split (d ++ sep :: f) sep = split d sep ++ [f].
Proof.
  intros Hf. induction d as [|x d IH]; simpl.
  - now rewrite N.eqb_refl, (split_no_sep f sep Hf).
  - rewrite IH. destruct (N.eqb x sep); [reflexivity|].
    destruct (split d sep) as [|seg rest] eqn:E;
      [now apply split_nonempty in E|reflexivity].
Qed.

Lemma join_split s sep : join (split s sep) [sep] = s.
Proof.
  induction s as [|x s IH]; [reflexivity|].
  simpl split. destruct (split s sep) as [|seg rest] eqn:E;
    [now apply split_nonempty in E|].
  destruct (N.eqb_spec x sep) as [->|_].
  - change (join ([] :: seg :: rest) [sep])
      with ([] ++ [sep] ++ join (seg :: rest) [sep]).
    now rewrite IH.
  - destruct rest as [|seg' rest].
    + simpl in *. now rewrite IH.
    + change (join ((x :: seg) :: seg' :: rest) [sep])
        with (x :: (seg ++ [sep] ++ join (seg' :: rest) [sep])).
      change (join (seg :: seg' :: rest) [sep])
        with (seg ++ [sep] ++ join (seg' :: rest) [sep]) in IH.
      now rewrite IH.
Qed.

Lemma safePathOf_slash d f :
  SLASH ∉ f ->
  safePathOf (d ++ [SLASH] ++ f)
  = let name := SafetyUtils.sanitizePath
                  (match f with [] => js "output" | _ => f end) in
    match d with
    | [] => name
    | _ => d ++ [SLASH] ++ name
    end.
Proof.
  intros Hf. unfold safePathOf. simpl app.
  rewrite (split_app_last d f SLASH Hf), removelast_last, last_snoc, join_split.
  now destruct f.
Qed.

Lemma safePathOf_plain f :
  SLASH ∉ f ->
  safePathOf f
  = SafetyUtils.sanitizePath (match f with [] => js "output" | _ => f end).
Proof.
  intros Hf. unfold safePathOf. rewrite (split_no_sep f SLASH Hf). simpl.
  now destruct f.
Qed.

Lemma directoryOf_slash d f : SLASH ∉ f -> directoryOf (d ++ [SLASH] ++ f) = d.
Proof.
  intros Hf. unfold directoryOf. simpl app.
  now rewrite (split_app_last d f SLASH Hf), removelast_last, join_split.
Qed.

Lemma present_ensured p q w :
  Adapter.present p w = true -> Adapter.present p (ensured w q) = true.
Proof.
  unfold ensured. destruct (Adapter.present q w); [easy|].
  unfold Adapter.present. simpl. intros [H|H]%orb_true_iff.
  - now rewrite H.
  - apply bool_decide_eq_true in H. rewrite orb_true_iff. right.
    apply bool_decide_eq_true. set_solver.
Qed.

Lemma ensured_present p w : Adapter.present p (ensured w p) = true.
Proof.
  unfold ensured. destruct (Adapter.present p w) eqn:E; [exact E|].
  unfold Adapter.present. simpl. rewrite orb_true_iff. right.
  apply bool_decide_eq_true. set_solver.
Qed.

Lemma provided_ensured d w : d <> [] -> provided d w = ensured w d.
Proof. destruct d; [contradiction|reflexivity]. Qed.

End ValidateFacts.

(** X6.  The path [validateAndCreatePath] returns: the part before the
    last slash as it was given, and after it the sanitized last segment,
    or [output] sanitized when that segment is empty (a path ending with a
    slash); a path [/name] loses its slash. *)
Theorem returned_path (path : jsstring) (w w' : World) (safePath : jsstring) :
  SafetyUtils.validateAndCreatePath path w = (Ok safePath, w') ->
  (forall directory filename,
      path = directory ++ [SLASH] ++ filename -> SLASH ∉ filename ->
      let name :=
        SafetyUtils.sanitizePath
          (match filename with [] => js "output" | _ => filename end) in
      safePath = match directory with
                 | [] => name
                 | _ => directory ++ [SLASH] ++ name
                 end) /\
  (SLASH ∉ path -> safePath = SafetyUtils.sanitizePath path).
Proof.
  intros H. apply validate_inv in H as [_ H].
  destruct (H safePath eq_refl) as [-> Hv]. split.
  - intros directory filename -> Hf. now apply safePathOf_slash.
  - intros Hp. rewrite (safePathOf_plain path Hp).
    destruct path; [discriminate Hv|reflexivity].
Qed.

Lemma returned_path_witness :
  js "split/a b-c.pdf"
  = js "split" ++ [SLASH] ++ SafetyUtils.sanitizePath (js "a  b-->c.pdf").
Proof.
  assert (E : SafetyUtils.validateAndCreatePath (js "split/a  b-->c.pdf")
                (vaultWith ∅ [])
              = (Ok (js "split/a b-c.pdf"),
                 snd (SafetyUtils.validateAndCreatePath
                        (js "split/a  b-->c.pdf") (vaultWith ∅ []))))
    by (vm_compute; reflexivity).
  assert (Hf : SLASH ∉ js "a  b-->c.pdf")
    by (apply (bool_decide_unpack _); vm_compute; exact I).
  exact (proj1 (returned_path _ _ _ _ E) (js "split") (js "a  b-->c.pdf")
               eq_refl Hf).
Defined.

(** X7.  In a quiet environment [validateAndCreatePath] succeeds for every
    path [directory/filename] that [isPathInVault] accepts.  Afterwards
    the folder [directory] is there, unless a file was at that path: a
    file at the place of the folder passes for it ([exists] does not tell
    them apart), and the folders are then as they were.  [directory] is
    the only folder that can have been added, and it is added only when
    nothing was at that path; files and documents are as they were. *)
Theorem validateAndCreatePath_quiet (directory filename : jsstring)
        (w : World) :
  SLASH ∉ filename ->
  SafetyUtils.isPathInVault (directory ++ [SLASH] ++ filename) = true ->
  pending w = [] ->
  exists safePath w',
    SafetyUtils.validateAndCreatePath (directory ++ [SLASH] ++ filename) w
    = (Ok safePath, w') /\
    files w' = files w /\ docs w' = docs w /\
    (directory <> [] -> files w !! directory = None -> directory ∈ dirs w') /\
    (is_Some (files w !! directory) -> dirs w' = dirs w) /\
    (forall q,
        q ∈ dirs w' <->
        q ∈ dirs w \/
        (q = directory /\ directory <> [] /\
         Adapter.present directory w = false)).
Proof.
  intros Hf Hv Hcalm.
  exists (safePathOf (directory ++ [SLASH] ++ filename)),
         (provided directory w).
  rewrite (validate_calm _ w Hv Hcalm), (directoryOf_slash _ _ Hf).
  split; [reflexivity|]. split; [apply provided_files|].
  destruct directory as [|c d].
  - simpl. split; [reflexivity|]. split; [intros H; now contradiction H|].
    split; [reflexivity|].
    intros q. split; [now left|].
    intros [H|(_ & H & _)]; [exact H|now contradiction H].
  - rewrite provided_ensured by discriminate.
    split; [unfold ensured; now destruct (Adapter.present _ w)|].
    split; [|split].
    + intros _ Hnone.
      pose proof (ensured_present (c :: d) w) as Hp.
      unfold Adapter.present in Hp.
      assert (Hfiles : files (ensured w (c :: d)) = files w)
        by (unfold ensured; now destruct (Adapter.present _ w)).
      rewrite Hfiles, Hnone in Hp.
      rewrite bool_decide_false in Hp by (intros [? [=]]).
      now apply bool_decide_eq_true in Hp.
    + intros Hsome. unfold ensured, Adapter.present.
      now rewrite bool_decide_true by exact Hsome.
    + intros q. unfold ensured.
      destruct (Adapter.present (c :: d) w) eqn:E; simpl.
      * split; [now left|]. intros [H|(_ & _ & H)]; [exact H|discriminate].
      * rewrite elem_of_union, elem_of_singleton. split.
        -- intros [->|H]; [right|now left]. repeat split. discriminate.
        -- intros [H|(-> & _ & _)]; [now right|now left].
Qed.

Lemma validateAndCreatePath_quiet_witness :
  exists safePath w',
    SafetyUtils.validateAndCreatePath (js "split" ++ [SLASH] ++ js "out.pdf")
                                      (vaultWith ∅ [])
    = (Ok safePath, w') /\
    js "split" ∈ dirs w'.
Proof.
  assert (Hf : SLASH ∉ js "out.pdf")
    by (apply (bool_decide_unpack _); vm_compute; exact I).
  assert (Hv : SafetyUtils.isPathInVault (js "split" ++ [SLASH] ++ js "out.pdf")
               = true) by (vm_compute; reflexivity).
  destruct (validateAndCreatePath_quiet (js "split") (js "out.pdf")
              (vaultWith ∅ []) Hf Hv eq_refl)
    as (safePath & w' & H1 & _ & _ & H2 & _).
  exists safePath, w'. split; [exact H1|]. apply H2; [discriminate|].
  reflexivity.
Defined.

(** A file named [split] in a quiet vault: [validateAndCreatePath] returns
    [split/out.pdf], and there is no folder [split]. *)
Example file_passes_for_folder :
  let w := vaultWith {[ js "split" := oldBytes ]} [] in
  SafetyUtils.validateAndCreatePath (js "split/out.pdf") w
  = (Ok (js "split/out.pdf"), w) /\
  fst (SafetyUtils.ensureDirectoryExists (js "split") w) = Ok tt /\
  dirs (snd (SafetyUtils.ensureDirectoryExists (js "split") w)) = ∅.
Proof. repeat split; vm_compute; reflexivity. Qed.



(** ** What [savePDF] touches, and when it succeeds *)

Section SaveMore.

Import Adapter.

Implicit Types (w : World) (sp q : jsstring).

Lemma write_calm q data w :
  pending w = [] ->
  writeBinary q data w
  = (Ok tt,
     mkWorld (<[q := data]> (files w)) (dirs w) (docs w) (codec w) (pending w)).
Proof. intros H. unfold writeBinary. now rewrite call_calm. Qed.

Lemma remove_calm q w old :
  pending w = [] -> files w !! q = Some old ->
  remove q w
  = (Ok tt,
     mkWorld (delete q (files w)) (dirs w) (docs w) (codec w) (pending w)).
Proof. intros H Hq. unfold remove. rewrite call_calm by exact H. now rewrite Hq. Qed.

(** The [try] block changes the files at its two paths only. *)
Lemma writeSteps_frame doc sp w r w' q :
  writeSteps doc sp (sp ++ js ".temp") w = (r, w') ->
  q <> sp -> q <> sp ++ js ".temp" ->
  files w' !! q = files w !! q /\ docs w' = docs w /\ codec w' = codec w.
Proof.
  intros H Hsp Htp. revert H.
  unfold writeSteps, bind, PdfLib.save.
  destruct (codec w _) as [pdfBytes|e0]; [|intros [= _ <-]; easy].
  destruct (writeBinary _ pdfBytes w) as [[[]|e1] w1] eqn:E1;
    apply (write_other q) in E1 as (F1 & D1 & C1); try congruence.
  2: { intros [= _ <-]. easy. }
  destruct (exists_ sp w1) as [[ex|e2] w2] eqn:E2;
    apply exists_inv in E2 as (F2 & D2 & C2).
  2: { intros [= _ <-]. repeat split; congruence. }
  assert (Hrest : forall w3,
             files w3 !! q = files w !! q /\ docs w3 = docs w /\
             codec w3 = codec w ->
             (let (r0, w'0) := writeBinary sp pdfBytes w3 in
              match r0 with
              | Ok _ =>
                  try_catch (remove (sp ++ js ".temp")) (fun _ => ret tt) w'0
              | Err e => (Err e, w'0)
              end) = (r, w') ->
             files w' !! q = files w !! q /\ docs w' = docs w /\
             codec w' = codec w).
  { intros w3 (F3 & D3 & C3).
    destruct (writeBinary sp pdfBytes w3) as [[[]|e4] w4] eqn:E4;
      apply (write_other q) in E4 as (F4 & D4 & C4); try congruence.
    - intros (_ & F5 & D5 & C5)%(cleanup_inv q); [|congruence].
      repeat split; congruence.
    - intros [= _ <-]. repeat split; congruence. }
  destruct ex.
  - destruct (remove sp w2) as [[[]|e3] w3] eqn:E3;
      apply (remove_other q) in E3 as (F3 & D3 & C3); try congruence.
    + apply Hrest. repeat split; congruence.
    + intros [= _ <-]. repeat split; congruence.
  - apply Hrest. unfold ret. repeat split; congruence.
Qed.

Lemma savePDF_frame doc path w r w' q :
  PDFProcessor.savePDF doc path w = (r, w') ->
  q <> safePathOf path -> q <> tempPathOf path ->
  files w' !! q = files w !! q /\ docs w' = docs w.
Proof.
  unfold tempPathOf. rewrite savePDF_unfold. unfold bind at 1.
  destruct (SafetyUtils.validateAndCreatePath path w) as [[sp|e] w1] eqn:E1;
    apply validate_inv in E1 as ((F1 & D1 & C1) & Hsp).
  2: { intros [= _ <-] _ _. split; congruence. }
  destruct (Hsp sp eq_refl) as [-> _]. clear Hsp.
  set (sp := safePathOf path). intros H Hq Ht. revert H.
  unfold bind, try_catch at 1.
  destruct (writeSteps doc sp (sp ++ js ".temp") w1) as [[[]|e] w2] eqn:E2;
    apply (writeSteps_frame _ _ _ _ _ q) in E2 as (F2 & D2 & _);
    try assumption.
  - unfold try_catch, bind, throw, ret.
    destruct (exists_ sp w2) as [[[|]|e] w3] eqn:E3;
      apply exists_inv in E3 as (F3 & D3 & _); intros [= _ <-];
      split; congruence.
  - unfold throw.
    destruct (try_catch (remove (sp ++ js ".temp")) (fun _ => ret tt) w2)
      as [r3 w3] eqn:E3.
    apply (cleanup_inv q) in E3 as (-> & F3 & D3 & _); [|congruence].
    intros [= _ <-]. split; congruence.
Qed.

(** The [try] block in a quiet environment, with a codec that succeeds
    and no folder at the final path. *)
Lemma writeSteps_quiet doc sp w pdfBytes :
  pending w = [] -> serialize w doc = Ok pdfBytes -> sp ∉ dirs w ->
  exists w',
    writeSteps doc sp (sp ++ js ".temp") w = (Ok tt, w') /\
    files w' = <[sp := pdfBytes]> (delete (sp ++ js ".temp") (files w)) /\
    dirs w' = dirs w /\ docs w' = docs w /\ codec w' = codec w /\
    pending w' = [].
Proof.
  intros Hcalm Hser Hdir. pose proof (temp_ne sp) as Hne.
  unfold writeSteps.
  assert (Hsave : PdfLib.save doc w = (Ok pdfBytes, w))
    by (unfold PdfLib.save; now rewrite <- Hser).
  rewrite (bind_ok _ _ _ _ _ Hsave).
  rewrite (bind_ok _ _ _ _ _ (write_calm _ pdfBytes w Hcalm)).
  set (w1 := mkWorld _ _ _ _ _).
  assert (Hc1 : pending w1 = []) by exact Hcalm.
  rewrite (bind_ok _ _ _ _ _ (exists_calm sp w1 Hc1)).
  assert (Hfinal : forall w2,
             pending w2 = [] -> dirs w2 = dirs w -> docs w2 = docs w ->
             codec w2 = codec w ->
             files w2 !! (sp ++ js ".temp") = Some pdfBytes ->
             <[sp := pdfBytes]> (delete (sp ++ js ".temp") (files w2))
             = <[sp := pdfBytes]> (delete (sp ++ js ".temp") (files w)) ->
             exists w',
               bind (writeBinary sp pdfBytes)
                    (fun _ => try_catch (remove (sp ++ js ".temp"))
                                        (fun _ => ret tt)) w2
               = (Ok tt, w') /\
               files w'
               = <[sp := pdfBytes]> (delete (sp ++ js ".temp") (files w)) /\
               dirs w' = dirs w /\ docs w' = docs w /\ codec w' = codec w /\
               pending w' = []).
  { intros w2 Hc2 Hd2 Ho2 Hk2 Ht2 Hf2.
    rewrite (bind_ok _ _ _ _ _ (write_calm sp pdfBytes w2 Hc2)).
    set (w3 := mkWorld _ _ _ _ _).
    assert (Ht3 : files w3 !! (sp ++ js ".temp") = Some pdfBytes)
      by (unfold w3; simpl; now rewrite lookup_insert_ne).
    eexists. split.
    - apply try_ok. apply (remove_calm _ w3 pdfBytes); [exact Hc2|exact Ht3].
    - simpl. repeat split; try assumption.
      rewrite <- Hf2. now rewrite delete_insert_ne. }
  destruct (present sp w1) eqn:Ep.
  - assert (Hsome : is_Some (files w !! sp)).
    { unfold present, w1 in Ep. simpl in Ep.
      apply orb_true_iff in Ep as [Ep|Ep].
      - apply bool_decide_eq_true in Ep.
        now rewrite lookup_insert_ne in Ep by exact Hne.
      - now apply bool_decide_eq_true in Ep. }
    destruct Hsome as [old Hold].
    assert (Hold1 : files w1 !! sp = Some old)
      by (unfold w1; simpl; now rewrite lookup_insert_ne).
    rewrite (bind_ok _ _ _ _ _ (remove_calm sp w1 old Hc1 Hold1)).
    apply Hfinal; try easy; simpl.
    + rewrite lookup_delete_ne by congruence. apply lookup_insert_eq.
    + apply map_eq. intros k.
      destruct (decide (k = sp)) as [->|Hk];
        [now rewrite !lookup_insert_eq|].
      rewrite !lookup_insert_ne by congruence.
      destruct (decide (k = sp ++ js ".temp")) as [->|Hk'];
        [now rewrite !lookup_delete_eq|].
      rewrite !lookup_delete_ne by congruence.
      now rewrite lookup_insert_ne by congruence.
  - unfold ret at 1. unfold bind at 1.
    apply Hfinal; try easy; simpl.
    + apply lookup_insert_eq.
    + now rewrite delete_insert_eq.
Qed.

Lemma savePDF_quiet doc path w pdfBytes :
  SafetyUtils.isPathInVault path = true -> pending w = [] ->
  serialize w doc = Ok pdfBytes -> safePathOf path ∉ dirs w ->
  exists w',
    PDFProcessor.savePDF doc path w = (Ok tt, w') /\
    files w'
    = <[safePathOf path := pdfBytes]> (delete (tempPathOf path) (files w)) /\
    docs w' = docs w /\ pending w' = [].
Proof.
  intros Hv Hcalm Hser Hdir. rewrite savePDF_unfold.
  rewrite (bind_ok _ _ _ _ _ (validate_calm path w Hv Hcalm)).
  set (sp := safePathOf path). set (w1 := provided (directoryOf path) w).
  assert (Hc1 : pending w1 = [])
    by (unfold w1; now rewrite provided_pending).
  assert (Hf1 : files w1 = files w) by apply provided_files.
  assert (Hs1 : serialize w1 doc = Ok pdfBytes).
  { unfold serialize, PdfLib.deref, w1, provided in *. destruct (directoryOf path);
      [exact Hser|]. now destruct (Adapter.present _ w). }
  assert (Hd1 : sp ∉ dirs w1).
  { intros Hin. pose proof (provided_present path w) as Hp.
    fold sp w1 in Hp. unfold present in Hp. rewrite Hf1 in Hp.
    rewrite (bool_decide_eq_true_2 _ Hin), orb_true_r in Hp.
    symmetry in Hp. apply orb_true_iff in Hp as [Hp|Hp];
      apply bool_decide_eq_true in Hp; [|contradiction].
    (* a file at the final path: then it is not a folder of [w1] either *)
    unfold w1, provided in Hin. destruct (directoryOf path) eqn:Ed;
      [contradiction|].
    destruct (Adapter.present (n :: l) w); [contradiction|].
    simpl in Hin. apply elem_of_union in Hin as [Hin|Hin]; [|contradiction].
    apply elem_of_singleton in Hin. unfold sp, safePathOf in Hin.
    fold (directoryOf path) in Hin. rewrite Ed in Hin.
    apply (f_equal length) in Hin. rewrite !length_app in Hin.
    simpl in Hin. lia. }
  destruct (writeSteps_quiet doc sp w1 pdfBytes Hc1 Hs1 Hd1)
    as (w2 & E2 & F2 & _ & D2 & _ & Hc2).
  unfold bind at 1. rewrite (try_ok _ _ _ _ _ E2).
  assert (Hpres : present sp w2 = true).
  { unfold present. rewrite F2, lookup_insert_eq.
    now rewrite bool_decide_eq_true_2 by eauto. }
  exists w2. split.
  - apply try_ok. rewrite (bind_ok _ _ _ _ _ (exists_calm sp w2 Hc2)).
    now rewrite Hpres.
  - split; [now rewrite F2, Hf1|]. split; [|exact Hc2].
    rewrite D2. unfold w1, provided. destruct (directoryOf path); [easy|].
    now destruct (Adapter.present _ w).
Qed.

End SaveMore.

(** X9.  Whatever happens, [savePDF] changes no file other than the one
    at the final path and the one at the final path followed by [.temp],
    and it changes no document. *)
Theorem savePDF_touches_two_paths (doc : PdfLib.handle) (path q : jsstring)
        (w : World) :
  q <> safePathOf path -> q <> safePathOf path ++ js ".temp" ->
  files (snd (PDFProcessor.savePDF doc path w)) !! q = files w !! q /\
  docs (snd (PDFProcessor.savePDF doc path w)) = docs w.
Proof.
  intros H1 H2.
  destruct (PDFProcessor.savePDF doc path w) as [r w'] eqn:E.
  exact (savePDF_frame doc path w r w' q E H1 H2).
Qed.

Lemma savePDF_touches_two_paths_witness :
  files (snd (PDFProcessor.savePDF 0 (js "new.pdf") diskFull)) !! js "out.pdf"
  = files diskFull !! js "out.pdf".
Proof.
  refine (proj1 (savePDF_touches_two_paths 0%nat (js "new.pdf") (js "out.pdf")
                   diskFull _ _)); vm_compute; discriminate.
Defined.

(** X10.  In a quiet environment, for a path [isPathInVault] accepts, a
    document the codec serializes and no folder at the final path,
    [savePDF] succeeds: afterwards the final path holds the serialized
    bytes, nothing is at the temporary path (a file that was there before
    is gone), and every other file and all documents are as before. *)
Theorem savePDF_succeeds_when_quiet (doc : PdfLib.handle) (path : jsstring)
        (w : World) (pdfBytes : list Byte.byte) :
  SafetyUtils.isPathInVault path = true ->
  pending w = [] ->
  serialize w doc = Ok pdfBytes ->
  safePathOf path ∉ dirs w ->
  exists w',
    PDFProcessor.savePDF doc path w = (Ok tt, w') /\
    files w' !! safePathOf path = Some pdfBytes /\
    files w' !! (safePathOf path ++ js ".temp") = None /\
    (forall q,
        q <> safePathOf path -> q <> safePathOf path ++ js ".temp" ->
        files w' !! q = files w !! q) /\
    docs w' = docs w.
Proof.
  intros Hv Hcalm Hser Hdir.
  destruct (savePDF_quiet doc path w pdfBytes Hv Hcalm Hser Hdir)
    as (w' & E & F & D & _).
  unfold tempPathOf in F. pose proof (temp_ne (safePathOf path)) as Hne.
  exists w'. split; [exact E|]. rewrite F. repeat split.
  - apply lookup_insert_eq.
  - rewrite lookup_insert_ne by congruence. apply lookup_delete_eq.
  - intros q H1 H2. rewrite lookup_insert_ne by congruence.
    now rewrite lookup_delete_ne by congruence.
  - exact D.
Qed.

Lemma savePDF_succeeds_when_quiet_witness :
  exists w',
    PDFProcessor.savePDF 0 (js "out.pdf") staleTemp = (Ok tt, w') /\
    files w' !! js "out.pdf" = Some [Byte.x01; Byte.x02] /\
    files w' !! js "out.pdf.temp" = None.
Proof.
  assert (Hv : SafetyUtils.isPathInVault (js "out.pdf") = true)
    by (vm_compute; reflexivity).
  assert (Hs : serialize staleTemp 0%nat = Ok [Byte.x01; Byte.x02])
    by (vm_compute; reflexivity).
  assert (Hd : safePathOf (js "out.pdf") ∉ dirs staleTemp)
    by (apply (bool_decide_unpack _); vm_compute; exact I).
  destruct (savePDF_succeeds_when_quiet 0%nat (js "out.pdf") staleTemp _
              Hv eq_refl Hs Hd) as (w' & E & F1 & F2 & _).
  exists w'. repeat split; assumption.
Defined.

(** X11.  When [doc.save()] fails, [savePDF] fails and writes nothing: the
    files are as before, except that a file at the temporary path, if one
    was there, may have been removed by the clean-up.  Once the path has
    been validated the message is [Failed to save PDF: ] followed by the
    message of the codec. *)
Theorem savePDF_codec_failure (doc : PdfLib.handle) (path : jsstring)
        (w : World) (e : jsstring) :
  serialize w doc = Err e ->
  (exists m, fst (PDFProcessor.savePDF doc path w) = Err m) /\
  (files (snd (PDFProcessor.savePDF doc path w)) = files w \/
   files (snd (PDFProcessor.savePDF doc path w))
   = delete (safePathOf path ++ js ".temp") (files w)) /\
  (forall safePath w1,
      SafetyUtils.validateAndCreatePath path w = (Ok safePath, w1) ->
      fst (PDFProcessor.savePDF doc path w)
      = Err (js "Failed to save PDF: " ++ e)).
Proof.
  intros Hser.
  destruct (PDFProcessor.savePDF doc path w) as [r w'] eqn:E. simpl.
  revert E. rewrite savePDF_unfold. unfold bind at 1.
  destruct (SafetyUtils.validateAndCreatePath path w) as [[sp|e0] w1] eqn:E1;
    apply validate_inv in E1 as ((F1 & D1 & C1) & Hsp).
  2: { intros [= <- <-]. split; [eauto|]. split; [now left|]. discriminate. }
  destruct (Hsp sp eq_refl) as [-> _]. clear Hsp.
  set (sp := safePathOf path).
  assert (E2 : writeSteps doc sp (sp ++ js ".temp") w1 = (Err e, w1)).
  { unfold writeSteps, bind, PdfLib.save.
    unfold serialize, PdfLib.deref in *. now rewrite D1, C1, Hser. }
  unfold bind, try_catch at 1. rewrite E2. unfold throw.
  destruct (try_catch (Adapter.remove (sp ++ js ".temp")) (fun _ => ret tt) w1)
    as [r3 w3] eqn:E3.
  assert (F3 : files w3 = files w1 \/
               files w3 = delete (sp ++ js ".temp") (files w1)).
  { revert E3. unfold try_catch, ret.
    destruct (Adapter.remove (sp ++ js ".temp") w1) as [[[]|e3] w2] eqn:E4;
      apply remove_inv in E4 as (_ & _ & [(_ & _ & F4)|[_ F4]]);
      intros [= _ <-]; auto. }
  apply (cleanup_inv sp) in E3 as (-> & _); [|apply temp_ne].
  intros [= <- <-]. split; [eauto|]. split.
  - rewrite <- F1. exact F3.
  - intros safePath w0 [= _ _]. reflexivity.
Qed.

Lemma savePDF_codec_failure_witness :
  fst (PDFProcessor.savePDF 0 (js "out.pdf") noCodec)
  = Err (js "Failed to save PDF: encode failed") /\
  files (snd (PDFProcessor.savePDF 0 (js "out.pdf") noCodec)) !! js "out.pdf.temp"
  = None.
Proof.
  assert (Hs : serialize noCodec 0%nat = Err (js "encode failed")) by reflexivity.
  destruct (savePDF_codec_failure 0%nat (js "out.pdf") noCodec _ Hs)
    as (_ & _ & H).
  split.
  - apply (H (js "out.pdf") noCodec). vm_compute. reflexivity.
  - vm_compute. reflexivity.
Defined.

(** ** When [extractPages] succeeds, and the check before it *)

Section ExtractMore.

Implicit Types (w : World) (ps : PDFDocument).

Lemma extractPages_ok w src ps startPage endPage :
  docs w !! src = Some ps ->
  1 <= startPage -> startPage <= endPage ->
  endPage <= Z.of_nat (length ps) ->
  PDFProcessor.extractPages src startPage endPage w
  = (Ok (length (docs w)),
     withDocs w (docs w ++ [pageRange ps startPage endPage])).
Proof.
  intros Hsrc H1 H2 H3.
  assert (Hlt : (src < length (docs w))%nat) by (eapply lookup_lt_Some; eauto).
  assert (Hne : length (docs w) <> src) by lia.
  pose proof (proj1 (fits_le ps) (pages_fit ps)) as Hfit.
  rewrite extractPages_small by lia.
  unfold bind at 1. unfold PdfLib.create.
  set (w1 := mkWorld _ _ _ _ _).
  assert (Hlen : (Z.to_nat (startPage - 1) + 0
                  + Z.to_nat (endPage - startPage + 1) <= length ps)%nat)
    by lia.
  pose proof (range_pages ps startPage _ 0%nat H1 Hlen) as Hrange.
  rewrite Nat.add_0_r in Hrange.
  assert (Hs1 : docs w1 !! src = Some ps)
    by (unfold w1; simpl; now apply lookup_app_l_Some).
  assert (Hn1 : docs w1 !! length (docs w) = Some PdfLib.emptyDocument).
  { unfold w1. simpl. rewrite lookup_app_r by lia. now rewrite Nat.sub_diag. }
  rewrite (bind_ok _ _ _ _ _
             (copy_loop src (length (docs w)) ps _ _ Hne Hrange w1
                        PdfLib.emptyDocument (pageRange ps startPage endPage)
                        Hs1 Hn1 (pageRange_pages ps startPage endPage))).
  unfold ret, withDocs, w1. simpl. f_equal. f_equal.
  replace (length (docs w)) with (length (docs w) + 0)%nat at 1 by lia.
  now rewrite insert_app_r.
Qed.

Lemma validateInput_accepts this w :
  PDFResectorModal.validateInput this w = None <->
  PDFResectorModal.pdfPath this <> [] /\
  PDFResectorModal.outputName this <> [] /\
  exists d,
    PDFResectorModal.doc this = Some d /\
    1 <= PDFResectorModal.startPage this /\
    PDFResectorModal.startPage this <= PDFResectorModal.endPage this /\
    PDFResectorModal.endPage this <= PdfLib.getPageCount d w.
Proof.
  unfold PDFResectorModal.validateInput.
  destruct (PDFResectorModal.pdfPath this) as [|c p].
  { split; [discriminate|]. intros [Hp _]. now contradiction Hp. }
  destruct (PDFResectorModal.doc this) as [d|].
  2: { split; [discriminate|]. now intros (_ & _ & d & [=] & _). }
  set (s := PDFResectorModal.startPage this).
  set (e := PDFResectorModal.endPage this).
  set (N := PdfLib.getPageCount d w).
  destruct (Z.eqb_spec s 0), (Z.eqb_spec e 0), (Z.ltb_spec e s); simpl;
    try (split; [discriminate|]; intros (_ & _ & d' & [= <-] & ?); lia).
  destruct (Z.ltb_spec s 1), (Z.ltb_spec N e); simpl;
    try (split; [discriminate|]; intros (_ & _ & d' & [= <-] & ?); lia).
  destruct (PDFResectorModal.outputName this).
  - split; [discriminate|]. intros (_ & Ho & _). now contradiction Ho.
  - split; [|reflexivity]. intros _.
    split; [discriminate|]. split; [discriminate|].
    exists d. repeat split; lia.
Qed.

End ExtractMore.



(** X13.  [validateInput] accepts the input (returns [null]) exactly when
    a PDF path and an output name are given, a document is loaded, and
    [1 <= startPage <= endPage <= N] for its page count [N]. *)
Theorem validateInput_accepts_iff (this : PDFResectorModal.modal) (w : World) :
  PDFResectorModal.validateInput this w = None <->
  PDFResectorModal.pdfPath this <> [] /\
  PDFResectorModal.outputName this <> [] /\
  exists d,
    PDFResectorModal.doc this = Some d /\
    1 <= PDFResectorModal.startPage this /\
    PDFResectorModal.startPage this <= PDFResectorModal.endPage this /\
    PDFResectorModal.endPage this <= PdfLib.getPageCount d w.
Proof. apply validateInput_accepts. Qed.

(** X14.  Input that [validateInput] accepts is input [extractPages]
    succeeds on: the loaded document is there, and the call returns a new
    document with the pages [startPage .. endPage], [endPage - startPage +
    1] of them. *)
Theorem accepted_input_extracts (this : PDFResectorModal.modal) (w : World) :
  PDFResectorModal.validateInput this w = None ->
  exists d ps,
    PDFResectorModal.doc this = Some d /\ docs w !! d = Some ps /\
    PDFProcessor.extractPages d (PDFResectorModal.startPage this)
                              (PDFResectorModal.endPage this) w
    = (Ok (length (docs w)),
       withDocs w
         (docs w ++ [pageRange ps (PDFResectorModal.startPage this)
                               (PDFResectorModal.endPage this)])) /\
    Z.of_nat (length (pageRange ps (PDFResectorModal.startPage this)
                                (PDFResectorModal.endPage this)))
    = PDFResectorModal.endPage this - PDFResectorModal.startPage this + 1.
Proof.
  intros (_ & _ & d & Hd & H1 & H2 & H3)%validateInput_accepts.
  unfold PdfLib.getPageCount, PdfLib.deref in H3.
  destruct (docs w !! d) as [ps|] eqn:Hps; [|simpl in H3; lia].
  simpl in H3. exists d, ps. split; [exact Hd|]. split; [exact Hps|].
  split; [now apply extractPages_ok|].
  rewrite pageRange_pages, length_take, length_drop. lia.
Qed.

Lemma accepted_input_extracts_witness :
  exists d ps,
    PDFResectorModal.doc goodModal = Some d /\ docs tenPages !! d = Some ps /\
    PDFProcessor.extractPages d 3 5 tenPages
    = (Ok 1%nat, withDocs tenPages (docs tenPages ++ [pageRange ps 3 5])).
Proof.
  assert (H : PDFResectorModal.validateInput goodModal tenPages = None)
    by (vm_compute; reflexivity).
  destruct (accepted_input_extracts goodModal tenPages H)
    as (d & ps & H1 & H2 & H3 & _).
  exists d, ps. repeat split; assumption.
Defined.

(** X15.  The two steps of a split, one after the other, in a quiet
    environment: for a valid range of a loaded document, a path
    [isPathInVault] accepts with no folder at the final path, and a codec
    that serializes the range, [extractPages] followed by [savePDF]
    succeeds and leaves at the final path the serialized pages
    [startPage .. endPage] of the source. *)
Theorem extract_then_save (w : World) (src : PdfLib.handle) (ps : PDFDocument)
        (startPage endPage : Z) (path : jsstring) (pdfBytes : list Byte.byte) :
  docs w !! src = Some ps ->
  1 <= startPage -> startPage <= endPage ->
  endPage <= Z.of_nat (length ps) ->
  SafetyUtils.isPathInVault path = true ->
  pending w = [] ->
  safePathOf path ∉ dirs w ->
  codec w (pageRange ps startPage endPage) = Ok pdfBytes ->
  exists w',
    bind (PDFProcessor.extractPages src startPage endPage)
         (fun newDoc => PDFProcessor.savePDF newDoc path) w
    = (Ok tt, w') /\
    files w' !! safePathOf path = Some pdfBytes /\
    docs w' = docs w ++ [pageRange ps startPage endPage].
Proof.
  intros Hsrc H1 H2 H3 Hv Hcalm Hdir Hcodec.
  rewrite (bind_ok _ _ _ _ _
             (extractPages_ok w src ps startPage endPage Hsrc H1 H2 H3)).
  set (w1 := withDocs w _).
  assert (Hser : serialize w1 (length (docs w)) = Ok pdfBytes).
  { unfold serialize, PdfLib.deref, w1, withDocs. simpl.
    rewrite lookup_app_r by lia. now rewrite Nat.sub_diag. }
  destruct (savePDF_quiet (length (docs w)) path w1 pdfBytes Hv Hcalm Hser Hdir)
    as (w' & E & F & D & _).
  exists w'. split; [exact E|]. split; [|exact D].
  rewrite F. apply lookup_insert_eq.
Qed.

Lemma extract_then_save_witness :
  exists w',
    bind (PDFProcessor.extractPages 0 3 5)
         (fun newDoc => PDFProcessor.savePDF newDoc (js "split/part.pdf"))
         tenPages
    = (Ok tt, w') /\
    files w' !! js "split/part.pdf" = Some [Byte.x03; Byte.x04; Byte.x05].
Proof.
  assert (H3 : 5 <= Z.of_nat (length (PdfLib.deref 0 tenPages)))
    by (vm_compute; discriminate).
  assert (Hv : SafetyUtils.isPathInVault (js "split/part.pdf") = true)
    by (vm_compute; reflexivity).
  assert (Hd : safePathOf (js "split/part.pdf") ∉ dirs tenPages)
    by (apply (bool_decide_unpack _); vm_compute; exact I).
  destruct (extract_then_save tenPages 0%nat _ 3 5 (js "split/part.pdf")
              [Byte.x03; Byte.x04; Byte.x05] eq_refl
              ltac:(lia) ltac:(lia) H3 Hv eq_refl Hd eq_refl)
    as (w' & E & F & _).
  exists w'. split; assumption.
Defined.

(** ** [ensureDirectoryExists] and [ensureSafeOutput] of [SafetyUtils] *)

Section FolderMore.

Import Adapter.

Implicit Types (w : World) (p q cur : jsstring) (parts l : list jsstring).

Lemma ensured_same w p :
  files (ensured w p) = files w /\ docs (ensured w p) = docs w /\
  codec (ensured w p) = codec w /\ pending (ensured w p) = pending w /\
  dirs w ⊆ dirs (ensured w p).
Proof.
  unfold ensured. destruct (present p w); simpl; repeat split; set_solver.
Qed.

Lemma ensuredAll_same l w :
  files (fold_left ensured l w) = files w /\
  docs (fold_left ensured l w) = docs w /\
  pending (fold_left ensured l w) = pending w /\
  dirs w ⊆ dirs (fold_left ensured l w).
Proof.
  revert w. induction l as [|p l IH]; intros w; simpl; [easy|].
  destruct (IH (ensured w p)) as (F & D & P & S).
  destruct (ensured_same w p) as (F' & D' & _ & P' & S').
  repeat split; try congruence. now transitivity (dirs (ensured w p)).
Qed.

Lemma ensuredAll_keeps l w q :
  present q w = true -> present q (fold_left ensured l w) = true.
Proof.
  revert w. induction l as [|p l IH]; intros w H; simpl; [exact H|].
  apply IH. now apply present_ensured.
Qed.

Lemma ensuredAll_present l w q :
  q ∈ l -> present q (fold_left ensured l w) = true.
Proof.
  revert w. induction l as [|p l IH]; intros w Hq; simpl;
    [now apply elem_of_nil in Hq|].
  apply elem_of_cons in Hq as [->|Hq].
  - apply ensuredAll_keeps, ensured_present.
  - now apply IH.
Qed.

Lemma ensuredAll_fixed l w :
  (forall q, q ∈ l -> present q w = true) -> fold_left ensured l w = w.
Proof.
  induction l as [|p l IH]; intros H; simpl; [reflexivity|].
  assert (Hp : ensured w p = w).
  { unfold ensured. rewrite (H p); [reflexivity|apply list_elem_of_here]. }
  rewrite Hp. apply IH. intros q Hq. apply H. now apply list_elem_of_further.
Qed.

(** The folders after the loop: those before it, and every path of the
    loop at which nothing was. *)
Lemma ensuredAll_dirs l w q :
  q ∈ dirs (fold_left ensured l w) <->
  q ∈ dirs w \/ (q ∈ l /\ present q w = false).
Proof.
  revert w. induction l as [|p l IH]; intros w; simpl.
  - split; [now left|]. intros [H|[H _]]; [exact H|].
    now apply elem_of_nil in H.
  - rewrite IH. unfold ensured.
    destruct (present p w) eqn:Ep.
    + split.
      * intros [H|[H1 H2]]; [now left|right].
        split; [now apply list_elem_of_further|exact H2].
      * intros [H|[H1 H2]]; [now left|].
        apply elem_of_cons in H1 as [->|H1]; [congruence|now right].
    + simpl. rewrite elem_of_union, elem_of_singleton.
      assert (Hmono : forall x,
                 present x (mkWorld (files w) ({[p]} ∪ dirs w) (docs w)
                                    (codec w) (pending w))
                 = present x w || bool_decide (x = p)).
      { intros x. unfold present. simpl.
        destruct (bool_decide (is_Some (files w !! x))); simpl;
          [reflexivity|].
        destruct (decide (x = p)) as [->|Hn].
        - rewrite (bool_decide_true (p = p)) by reflexivity.
          rewrite orb_true_r. apply bool_decide_true.
          apply elem_of_union. left. now apply elem_of_singleton.
        - rewrite (bool_decide_false (x = p)) by exact Hn.
          rewrite orb_false_r. apply bool_decide_ext.
          rewrite elem_of_union, elem_of_singleton. tauto. }
      split.
      * intros [[->|H]|[H1 H2]].
        -- right. split; [apply list_elem_of_here|exact Ep].
        -- now left.
        -- right. split; [now apply list_elem_of_further|].
           rewrite Hmono in H2. now apply orb_false_iff in H2 as [H2 _].
      * intros [H|[H1 H2]]; [left; now right|].
        apply elem_of_cons in H1 as [->|H1]; [left; now left|].
        destruct (decide (q = p)) as [->|Hn]; [left; now left|].
        right. split; [exact H1|]. rewrite Hmono, H2.
        now rewrite bool_decide_false by exact Hn.
Qed.

Lemma ensureParts_quiet parts cur w :
  pending w = [] ->
  SafetyUtils.ensureParts parts cur w
  = (Ok tt, fold_left ensured (prefixPaths parts cur) w).
Proof.
  revert cur w. induction parts as [|part rest IH]; intros cur w Hcalm;
    [reflexivity|].
  rewrite ensureParts_cons. simpl prefixPaths. simpl fold_left.
  rewrite (bind_ok _ _ _ _ _ (exists_calm _ w Hcalm)).
  unfold ensured. destruct (present (nextPath cur part) w);
    cbn beta iota delta [negb].
  - unfold ret at 1. unfold bind at 1. now apply IH.
  - rewrite (bind_ok _ _ _ _ _ (mkdir_calm _ w Hcalm)). now apply IH.
Qed.

Lemma ensureDirectoryExists_parts directory w :
  SafetyUtils.ensureDirectoryExists directory w
  = SafetyUtils.ensureParts (segments directory) [] w.
Proof. destruct directory; reflexivity. Qed.

Lemma ensureParts_sameFiles parts :
  forall cur w r w',
    SafetyUtils.ensureParts parts cur w = (r, w') -> sameFiles w w'.
Proof.
  induction parts as [|part rest IH]; intros cur w r w'.
  - intros [= _ <-]. apply sameFiles_refl.
  - rewrite ensureParts_cons. unfold bind at 1.
    destruct (exists_ (nextPath cur part) w) as [[ex|e] w1] eqn:E1;
      apply exists_inv in E1.
    2: { now intros [= _ <-]. }
    unfold bind.
    destruct ((if negb ex then mkdir (nextPath cur part) else ret tt) w1)
      as [[[]|e] w2] eqn:E2.
    + intros H. apply IH in H.
      assert (S2 : sameFiles w1 w2).
      { destruct ex; simpl in E2;
          [injection E2 as <-; apply sameFiles_refl|now apply mkdir_inv in E2]. }
      eauto using sameFiles_trans.
    + intros [= _ <-].
      destruct ex; simpl in E2; [discriminate|apply mkdir_inv in E2].
      eauto using sameFiles_trans.
Qed.

End FolderMore.

Example prefixPaths_example :
  prefixPaths (segments (js "a//b/c/")) [] = [js "a"; js "a/b"; js "a/b/c"].
Proof. vm_compute. reflexivity. Qed.

(** X16.  In a quiet environment [ensureDirectoryExists] succeeds and
    changes no file.  The folders afterwards are those there were before
    and every prefix of the folder path (one per non-empty segment) at
    which nothing was.  So every prefix is a folder afterwards, unless a
    file is at that path: a file at the place of a folder passes for it,
    and no folder is made there. *)
Theorem ensureDirectoryExists_quiet (directory : jsstring) (w : World) :
  pending w = [] ->
  exists w',
    SafetyUtils.ensureDirectoryExists directory w = (Ok tt, w') /\
    files w' = files w /\
    (forall q,
        q ∈ dirs w' <->
        q ∈ dirs w \/
        (q ∈ prefixPaths (segments directory) [] /\
         Adapter.present q w = false)) /\
    (forall p,
        p ∈ prefixPaths (segments directory) [] ->
        files w !! p = None -> p ∈ dirs w') /\
    (forall p, is_Some (files w !! p) -> p ∈ dirs w' -> p ∈ dirs w).
Proof.
  intros Hcalm. rewrite ensureDirectoryExists_parts.
  rewrite (ensureParts_quiet _ _ _ Hcalm). eexists. split; [reflexivity|].
  destruct (ensuredAll_same (prefixPaths (segments directory) []) w)
    as (F & _ & _ & S).
  split; [exact F|]. split; [apply ensuredAll_dirs|]. split.
  - intros p Hp Hnone. apply ensuredAll_dirs.
    destruct (decide (p ∈ dirs w)) as [Hin|Hout]; [now left|right].
    split; [exact Hp|]. unfold Adapter.present. rewrite Hnone.
    rewrite bool_decide_false by (intros [? [=]]).
    now rewrite bool_decide_false by exact Hout.
  - intros p Hsome [H|[_ H]]%ensuredAll_dirs; [exact H|].
    unfold Adapter.present in H.
    now rewrite bool_decide_true in H by exact Hsome.
Qed.

Lemma ensureDirectoryExists_quiet_witness :
  exists w',
    SafetyUtils.ensureDirectoryExists (js "a//b/c/") tenPages = (Ok tt, w') /\
    js "a/b/c" ∈ dirs w'.
Proof.
  destruct (ensureDirectoryExists_quiet (js "a//b/c/") tenPages eq_refl)
    as (w' & E & _ & _ & H & _).
  exists w'. split; [exact E|]. apply H; [|reflexivity].
  apply (bool_decide_unpack _). vm_compute. exact I.
Defined.

(** X17.  In a quiet environment [ensureDirectoryExists] is idempotent:
    run again on the vault it has left, it succeeds and changes nothing. *)
Theorem ensureDirectoryExists_idempotent (directory : jsstring) (w : World) :
  pending w = [] ->
  SafetyUtils.ensureDirectoryExists directory
    (snd (SafetyUtils.ensureDirectoryExists directory w))
  = (Ok tt, snd (SafetyUtils.ensureDirectoryExists directory w)).
Proof.
  intros Hcalm. rewrite !ensureDirectoryExists_parts.
  rewrite (ensureParts_quiet _ _ _ Hcalm). simpl snd.
  destruct (ensuredAll_same (prefixPaths (segments directory) []) w)
    as (_ & _ & P & _).
  rewrite ensureParts_quiet by congruence.
  f_equal. apply ensuredAll_fixed. intros q Hq. now apply ensuredAll_present.
Qed.

Lemma ensureDirectoryExists_idempotent_witness :
  SafetyUtils.ensureDirectoryExists (js "a/b")
    (snd (SafetyUtils.ensureDirectoryExists (js "a/b") tenPages))
  = (Ok tt, snd (SafetyUtils.ensureDirectoryExists (js "a/b") tenPages)).
Proof. exact (ensureDirectoryExists_idempotent (js "a/b") tenPages eq_refl). Defined.

(** X18.  [ensureSafeOutput] of [SafetyUtils] never throws: whatever the
    path, the size and the environment, it returns a result; and it never
    changes a file or a document. *)
Theorem ensureSafeOutput_never_throws (path : jsstring) (fileSize : option Z)
        (w : World) :
  (exists result,
      fst (SafetyUtils.ensureSafeOutput path fileSize w) = Ok result) /\
  files (snd (SafetyUtils.ensureSafeOutput path fileSize w)) = files w /\
  docs (snd (SafetyUtils.ensureSafeOutput path fileSize w)) = docs w.
Proof.
  unfold SafetyUtils.ensureSafeOutput, try_catch.
  destruct (SafetyUtils.isPathInVault path); cbn beta iota delta [negb];
    [|unfold ret; simpl; eauto].
  fold (oversize fileSize). destruct (oversize fileSize);
    [unfold ret; simpl; eauto|].
  unfold bind.
  destruct (SafetyUtils.ensureDirectoryExists _ w) as [[[]|e] w1] eqn:E;
    rewrite ensureDirectoryExists_parts in E;
    apply ensureParts_sameFiles in E as (F & D & _);
    unfold ret; simpl; eauto.
Qed.

(** X19.  In a quiet environment the verdict of [ensureSafeOutput] is
    decided by the path and the size alone: success exactly when
    [isPathInVault] accepts the path and the size, if given and not 0, is
    at most 100 MiB; the path is checked first. *)
Theorem ensureSafeOutput_verdict (path : jsstring) (fileSize : option Z)
        (w : World) :
  pending w = [] ->
  fst (SafetyUtils.ensureSafeOutput path fileSize w)
  = Ok (if negb (SafetyUtils.isPathInVault path)
        then SafetyUtils.mkResult false (Some SafetyUtils.INVALID_PATH)
        else if match fileSize with
                | Some n => negb (n =? 0) && (100 * 1024 * 1024 <? n)
                | None => false
                end
        then SafetyUtils.mkResult false
               (Some (js "File size exceeds maximum allowed size"))
        else SafetyUtils.mkResult true None).
Proof.
  intros Hcalm. unfold SafetyUtils.ensureSafeOutput, try_catch.
  destruct (SafetyUtils.isPathInVault path); cbn beta iota delta [negb];
    [|reflexivity].
  change (100 * 1024 * 1024) with SafetyUtils.MAX_PDF_SIZE.
  destruct (match fileSize with
            | Some n => negb (n =? 0) && (SafetyUtils.MAX_PDF_SIZE <? n)
            | None => false
            end); [reflexivity|].
  unfold bind. rewrite ensureDirectoryExists_parts.
  now rewrite (ensureParts_quiet _ _ _ Hcalm).
Qed.

Lemma ensureSafeOutput_verdict_witness :
  fst (SafetyUtils.ensureSafeOutput (js "split/out.pdf") (Some 104857601)
         tenPages)
  = Ok (SafetyUtils.mkResult false
          (Some (js "File size exceeds maximum allowed size"))).
Proof. exact (ensureSafeOutput_verdict (js "split/out.pdf") (Some 104857601) tenPages eq_refl). Defined.

(** ** [loadPDF] *)

Section LoadFacts.

Import Adapter.

Implicit Types (w : World) (p : jsstring).

Variable parse : list Byte.byte -> Res PDFDocument.

Lemma stat_inv p w r w' :
  stat p w = (r, w') ->
  sameFiles w w' /\
  forall st data,
    r = Ok st -> files w !! p = Some data ->
    st = Some (Z.of_nat (length data)).
Proof.
  intros (w1 & Hf & Hd & Hc & [(e & -> & ->)|[= <- <-]])%call_inv.
  - split; [repeat split; assumption|discriminate].
  - split; [repeat split; assumption|].
    intros st data [= <-] Hdata. now rewrite Hf, Hdata.
Qed.

Lemma read_inv p w r w' :
  readBinary p w = (r, w') ->
  sameFiles w w' /\ forall data, r = Ok data -> files w !! p = Some data.
Proof.
  intros (w1 & Hf & Hd & Hc & [(e & -> & ->)|H])%call_inv.
  - split; [repeat split; assumption|discriminate].
  - destruct (files w1 !! p) as [data|] eqn:E; injection H as <- <-.
    + split; [repeat split; assumption|]. intros ? [= <-]. now rewrite <- Hf.
    + split; [repeat split; assumption|discriminate].
Qed.

Lemma stat_calm p w data :
  pending w = [] -> files w !! p = Some data ->
  stat p w = (Ok (Some (Z.of_nat (length data))), w).
Proof. intros H Hp. unfold stat. rewrite call_calm by exact H. now rewrite Hp. Qed.

Lemma read_calm p w data :
  pending w = [] -> files w !! p = Some data ->
  readBinary p w = (Ok data, w).
Proof.
  intros H Hp. unfold readBinary. rewrite call_calm by exact H. now rewrite Hp.
Qed.

(** The [try] block of [loadPDF]. *)
Lemma loadPDF_inv p w r w' :
  PDFProcessor.loadPDF parse p w = (r, w') ->
  files w' = files w /\
  match r with
  | Ok h =>
      exists data d,
        files w !! p = Some data /\
        Z.of_nat (length data) <= PDFProcessor.MAX_PDF_SIZE /\
        parse data = Ok d /\
        h = length (docs w) /\ docs w' = docs w ++ [d]
  | Err m =>
      (exists e, m = js "Failed to load PDF: " ++ e) /\ docs w' = docs w
  end.
Proof.
  unfold PDFProcessor.loadPDF, try_catch, bind.
  destruct (stat p w) as [[st|e0] w1] eqn:E1;
    apply stat_inv in E1 as ((F1 & D1 & _) & Hst).
  2: { intros [= <- <-]. eauto. }
  specialize (Hst st).
  assert (Hcont :
            (forall data, files w !! p = Some data ->
                          Z.of_nat (length data) <= PDFProcessor.MAX_PDF_SIZE) ->
            (let (r0, w'0) :=
               let (r0, w'0) := readBinary p w1 in
               match r0 with
               | Ok a => PdfLib.load parse a w'0
               | Err e => (Err e, w'0)
               end in
             match r0 with
             | Ok a => (Ok a, w'0)
             | Err e => throw (js "Failed to load PDF: " ++ e) w'0
             end) = (r, w') ->
            files w' = files w /\
            match r with
            | Ok h =>
                exists data d,
                  files w !! p = Some data /\
                  Z.of_nat (length data) <= PDFProcessor.MAX_PDF_SIZE /\
                  parse data = Ok d /\
                  h = length (docs w) /\ docs w' = docs w ++ [d]
            | Err m =>
                (exists e, m = js "Failed to load PDF: " ++ e) /\
                docs w' = docs w
            end).
  { intros Hsize.
    destruct (readBinary p w1) as [[data|e2] w2] eqn:E2;
      apply read_inv in E2 as ((F2 & D2 & _) & Hdata).
    2: { intros [= <- <-]. split; [congruence|]. split; eauto; congruence. }
    specialize (Hdata data eq_refl). rewrite F1 in Hdata.
    unfold PdfLib.load.
    destruct (parse data) as [d|e3] eqn:E3; intros [= <- <-]; simpl.
    - split; [congruence|]. exists data, d.
      repeat split; try congruence. now apply Hsize.
    - split; [congruence|]. split; eauto; congruence. }
  destruct st as [size|].
  - destruct (Z.ltb_spec PDFProcessor.MAX_PDF_SIZE size) as [Hbig|Hok].
    + unfold throw. intros [= <- <-]. eauto.
    + unfold ret at 1. apply Hcont. intros data Hdata.
      specialize (Hst data eq_refl Hdata). injection Hst as ->. exact Hok.
  - unfold ret at 1. apply Hcont. intros data Hdata.
    specialize (Hst data eq_refl Hdata). discriminate Hst.
Qed.

End LoadFacts.

(** X20.  When [loadPDF] returns a document, the file was there, its size
    was at most 100 MiB, the parser accepted its bytes, and the document
    returned is the parsed one, added as a new document; the files of the
    vault are as before. *)
Theorem loadPDF_success (parse : list Byte.byte -> Res PDFDocument)
        (path : jsstring) (w w' : World) (h : PdfLib.handle) :
  PDFProcessor.loadPDF parse path w = (Ok h, w') ->
  exists data d,
    files w !! path = Some data /\
    Z.of_nat (length data) <= 100 * 1024 * 1024 /\
    parse data = Ok d /\
    h = length (docs w) /\ docs w' = docs w ++ [d] /\
    PdfLib.getPageCount h w' = Z.of_nat (length d) /\
    files w' = files w.
Proof.
  intros H. apply loadPDF_inv in H as (F & data & d & H1 & H2 & H3 & -> & H5).
  exists data, d. repeat split; try assumption.
  unfold PdfLib.getPageCount, PdfLib.deref. rewrite H5, lookup_app_r by lia.
  now rewrite Nat.sub_diag.
Qed.

Lemma loadPDF_success_witness :
  exists data d,
    files withBook !! js "book.pdf" = Some data /\
    bytePages data = Ok d /\
    PdfLib.getPageCount 1
      (snd (PDFProcessor.loadPDF bytePages (js "book.pdf") withBook))
    = Z.of_nat (length d).
Proof.
  assert (E : PDFProcessor.loadPDF bytePages (js "book.pdf") withBook
              = (Ok 1%nat,
                 snd (PDFProcessor.loadPDF bytePages (js "book.pdf") withBook)))
    by (vm_compute; reflexivity).
  destruct (loadPDF_success _ _ _ _ _ E)
    as (data & d & H1 & _ & H3 & _ & _ & H6 & _).
  exists data, d. repeat split; assumption.
Defined.

(** X21.  When [loadPDF] fails, the message starts with
    [Failed to load PDF: ], and neither the files nor the documents have
    changed. *)
Theorem loadPDF_failure (parse : list Byte.byte -> Res PDFDocument)
        (path : jsstring) (w w' : World) (m : jsstring) :
  PDFProcessor.loadPDF parse path w = (Err m, w') ->
  (exists e, m = js "Failed to load PDF: " ++ e) /\
  files w' = files w /\ docs w' = docs w.
Proof.
  intros H. apply loadPDF_inv in H as (F & Hm & D). auto.
Qed.

Lemma loadPDF_failure_witness :
  exists e,
    js "Failed to load PDF: ENOENT: no such file or directory"
    = js "Failed to load PDF: " ++ e.
Proof.
  assert (E : PDFProcessor.loadPDF bytePages (js "none.pdf") withBook
              = (Err (js "Failed to load PDF: ENOENT: no such file or directory"),
                 snd (PDFProcessor.loadPDF bytePages (js "none.pdf") withBook)))
    by (vm_compute; reflexivity).
  exact (proj1 (loadPDF_failure _ _ _ _ _ E)).
Defined.

(** X22.  In a quiet environment, for a file that is in the vault,
    [loadPDF] returns a document exactly when the file has at most
    100 MiB and the parser accepts its bytes. *)
Theorem loadPDF_succeeds_iff (parse : list Byte.byte -> Res PDFDocument)
        (path : jsstring) (w : World) (data : list Byte.byte) :
  pending w = [] ->
  files w !! path = Some data ->
  (exists h w', PDFProcessor.loadPDF parse path w = (Ok h, w')) <->
  Z.of_nat (length data) <= 100 * 1024 * 1024 /\
  exists d, parse data = Ok d.
Proof.
  intros Hcalm Hdata. split.
  - intros (h & w' & H).
    apply loadPDF_inv in H as (_ & data' & d & H1 & H2 & H3 & _).
    rewrite Hdata in H1. injection H1 as <-. eauto.
  - intros (Hsize & d & Hd).
    unfold PDFProcessor.loadPDF, try_catch.
    rewrite (bind_ok _ _ _ _ _ (stat_calm path w data Hcalm Hdata)).
    change (100 * 1024 * 1024) with PDFProcessor.MAX_PDF_SIZE in Hsize.
    destruct (Z.ltb_spec PDFProcessor.MAX_PDF_SIZE (Z.of_nat (length data)));
      [lia|].
    unfold ret at 1. unfold bind at 1.
    rewrite (bind_ok _ _ _ _ _ (read_calm path w data Hcalm Hdata)).
    unfold PdfLib.load. rewrite Hd. eauto.
Qed.

Lemma loadPDF_succeeds_iff_witness :
  (exists h w',
      PDFProcessor.loadPDF bytePages (js "book.pdf") withBook = (Ok h, w')) <->
  Z.of_nat (length [Byte.x07; Byte.x08; Byte.x09]) <= 100 * 1024 * 1024 /\
  exists d, bytePages [Byte.x07; Byte.x08; Byte.x09] = Ok d.
Proof.
  exact (loadPDF_succeeds_iff bytePages (js "book.pdf") withBook _
           eq_refl eq_refl).
Defined.

(** ** The first version of [extractPages] *)

Section LegacyFacts.

Import PdfLib.

Implicit Types (w : World) (ps acc : PDFDocument) (idxs : list Z).

Lemma copyAll_ok h src ps idxs (copied : list Page) w :
  Forall2 (fun idx p => 0 <= idx /\ getPages ps !! Z.to_nat idx = Some p)
          idxs copied ->
  docs w !! src = Some ps ->
  copyPagesAll h src idxs w = (Ok copied, w).
Proof.
  intros H Hs. induction H as [|idx p idxs copied [Hi Hp] _ IH];
    [reflexivity|].
  simpl. unfold bind at 1. unfold copyPages. rewrite (deref_known _ _ _ Hs).
  destruct (Z.ltb_spec idx 0); [lia|]. rewrite Hp.
  unfold bind. now rewrite IH.
Qed.

Lemma copyAll_stops h src ps idxs w :
  Exists (fun idx => idx < 0 \/ Z.of_nat (length ps) <= idx) idxs ->
  docs w !! src = Some ps ->
  copyPagesAll h src idxs w = (Err NOT_A_PAGE, w).
Proof.
  intros Hex Hs. induction idxs as [|idx idxs IH]; [inversion Hex|].
  simpl. unfold bind at 1. unfold copyPages. rewrite (deref_known _ _ _ Hs).
  destruct (decide (idx < 0 \/ Z.of_nat (length ps) <= idx)) as [Hbad|Hok].
  - destruct (Z.ltb_spec idx 0); [reflexivity|].
    now rewrite lookup_ge_None_2 by lia.
  - destruct (Z.ltb_spec idx 0); [lia|].
    destruct (lookup_lt_is_Some_2 ps (Z.to_nat idx)) as [p Hp]; [lia|].
    rewrite Hp. apply Exists_cons in Hex as [Hex|Hex]; [contradiction|].
    unfold bind. now rewrite (IH Hex).
Qed.

Lemma add_loop h (pages : list Page) :
  forall w acc (d : PDFDocument),
    docs w !! h = Some acc ->
    getPages d = acc ++ pages ->
    forOf pages (fun page => addPage h page) w
    = (Ok tt, withDocs w (<[h := d]> (docs w))).
Proof.
  induction pages as [|p pages IH]; intros w acc d Hh Hd.
  - simpl. unfold ret, withDocs. rewrite app_nil_r in Hd.
    apply document_eq in Hd as ->.
    rewrite list_insert_id by exact Hh. now destruct w.
  - simpl. unfold bind. unfold addPage at 1.
    rewrite (deref_known _ _ _ Hh).
    destruct (document_Some (acc ++ [p])) as (d1 & -> & Hd1).
    { apply fits_le. pose proof (proj1 (fits_le d) (pages_fit d)) as Hfit.
      rewrite Hd in Hfit. rewrite !length_app in *. simpl in *. lia. }
    assert (Hlt : (h < length (docs w))%nat) by (eapply lookup_lt_Some; eauto).
    rewrite (IH _ d1 d).
    + unfold withDocs. simpl. now rewrite list_insert_insert_eq.
    + simpl. now apply list_lookup_insert_eq.
    + rewrite Hd, Hd1. now rewrite <- app_assoc.
Qed.

Lemma indices_cases ps idxs :
  (exists copied : list Page,
      Forall2 (fun idx p => 0 <= idx /\ getPages ps !! Z.to_nat idx = Some p)
              idxs copied) \/
  Exists (fun idx => idx < 0 \/ Z.of_nat (length ps) <= idx) idxs.
Proof.
  induction idxs as [|idx idxs [[copied IH]|IH]].
  - left. exists []. constructor.
  - destruct (decide (idx < 0 \/ Z.of_nat (length ps) <= idx)) as [Hbad|Hok].
    + right. now constructor.
    + destruct (lookup_lt_is_Some_2 ps (Z.to_nat idx)) as [p Hp]; [lia|].
      left. exists (p :: copied). constructor; [split; [lia|exact Hp]|exact IH].
  - right. now apply Exists_cons_tl.
Qed.

(** The first version of [extractPages] once [Array.from] has made the
    indexes, and when it throws. *)
Lemma legacy_extractPages_small doc startPage endPage :
  endPage - startPage + 1 <= MAX_ARRAY_LENGTH ->
  LegacyPDFProcessor.extractPages doc startPage endPage
  = (newDoc <- create ;;
     pages <- copyPagesAll newDoc doc
                (map (fun i => Z.of_nat i + startPage - 1)
                     (seq 0 (Z.to_nat (endPage - startPage + 1)))) ;;
     forOf pages (fun page => addPage newDoc page) ;;;
     ret newDoc).
Proof.
  intros H. unfold LegacyPDFProcessor.extractPages.
  rewrite (Array_from_ok _ _ H). reflexivity.
Qed.

Lemma legacy_extractPages_large doc startPage endPage w :
  MAX_ARRAY_LENGTH < endPage - startPage + 1 ->
  LegacyPDFProcessor.extractPages doc startPage endPage w
  = (Err INVALID_ARRAY_LENGTH, w).
Proof.
  intros H. unfold LegacyPDFProcessor.extractPages.
  rewrite (Array_from_err _ _ H). reflexivity.
Qed.

End LegacyFacts.

(** X23.  The first version of [extractPages], which copies all the
    pages by one call of [copyPages], and the present one, which copies
    them one by one, agree on a loaded document: they fail or succeed
    together, with the same error, and when they succeed they return the
    same handle and leave the same documents.  The first version fails in
    two ways only: for a range of [2^32] pages or more with the
    [RangeError] of [Array.from], nothing having been created; for a
    shorter range with the error of pdf-lib, and the new document it has
    created has no pages. *)
Theorem legacy_extractPages_agrees (w : World) (src : PdfLib.handle)
        (ps : PDFDocument) (startPage endPage : Z) :
  docs w !! src = Some ps ->
  fst (LegacyPDFProcessor.extractPages src startPage endPage w)
  = fst (PDFProcessor.extractPages src startPage endPage w) /\
  (forall newDoc w',
      PDFProcessor.extractPages src startPage endPage w = (Ok newDoc, w') ->
      LegacyPDFProcessor.extractPages src startPage endPage w
      = (Ok newDoc, w')) /\
  (forall m w',
      LegacyPDFProcessor.extractPages src startPage endPage w = (Err m, w') ->
      (m = INVALID_ARRAY_LENGTH /\ 2 ^ 32 <= endPage - startPage + 1 /\
       w' = w) \/
      (m = PdfLib.NOT_A_PAGE /\ endPage - startPage + 1 < 2 ^ 32 /\
       w' = withDocs w (docs w ++ [PdfLib.emptyDocument]))).
Proof.
  intros Hsrc.
  destruct (Z.le_gt_cases (endPage - startPage + 1) MAX_ARRAY_LENGTH)
    as [Hsmall|Hlarge].
  2: { rewrite legacy_extractPages_large, extractPages_large by exact Hlarge.
       split; [reflexivity|]. split; [discriminate|].
       intros m w' [= <- <-]. left.
       split; [reflexivity|]. split; [|reflexivity].
       unfold MAX_ARRAY_LENGTH in Hlarge. lia. }
  assert (Hlt : (src < length (docs w))%nat) by (eapply lookup_lt_Some; eauto).
  rewrite legacy_extractPages_small, extractPages_small by exact Hsmall.
  set (idxs := map (fun i => Z.of_nat i + startPage - 1)
                   (seq 0 (Z.to_nat (endPage - startPage + 1)))).
  assert (Hidxs : Z.of_nat (length idxs) <= MAX_ARRAY_LENGTH).
  { unfold idxs. rewrite length_map, length_seq.
    unfold MAX_ARRAY_LENGTH in *. lia. }
  set (h := length (docs w)).
  set (w1 := withDocs w (docs w ++ [PdfLib.emptyDocument])).
  assert (Hcreate : PdfLib.create w = (Ok h, w1)) by reflexivity.
  assert (Hne : h <> src) by (unfold h; lia).
  assert (Hs1 : docs w1 !! src = Some ps)
    by (unfold w1; simpl; now apply lookup_app_l_Some).
  assert (Hn1 : docs w1 !! h = Some PdfLib.emptyDocument).
  { unfold w1, h. simpl. rewrite lookup_app_r by lia. now rewrite Nat.sub_diag. }
  destruct (indices_cases ps idxs) as [[copied Hc]|Hbad].
  - destruct (document_Some copied) as (d & _ & Hd).
    { apply fits_le. now rewrite <- (Forall2_length _ _ _ Hc). }
    rewrite (bind_ok _ _ _ _ _ Hcreate).
    rewrite (bind_ok _ _ _ _ _ Hcreate).
    rewrite (bind_ok _ _ _ _ _ (copyAll_ok h src ps idxs copied w1 Hc Hs1)).
    rewrite (bind_ok _ _ _ _ _
               (add_loop h copied w1 PdfLib.emptyDocument d Hn1 Hd)).
    rewrite (bind_ok _ _ _ _ _
               (copy_loop src h ps idxs copied Hne Hc w1
                          PdfLib.emptyDocument d Hs1 Hn1 Hd)).
    split; [reflexivity|]. split; [easy|discriminate].
  - rewrite (bind_ok _ _ _ _ _ Hcreate).
    rewrite (bind_ok _ _ _ _ _ Hcreate).
    rewrite (bind_err _ _ _ _ _ (copyAll_stops h src ps idxs w1 Hbad Hs1)).
    destruct (copy_loop_stops h src ps idxs Hne Hbad w1 PdfLib.emptyDocument
                              Hs1 Hn1 Hidxs)
      as [w2 H2].
    rewrite (bind_err _ _ _ _ _ H2).
    split; [reflexivity|]. split; [discriminate|].
    intros m w' [= <- <-]. right.
    split; [reflexivity|]. split; [|reflexivity].
    unfold MAX_ARRAY_LENGTH in Hsmall. lia.
Qed.

Lemma legacy_extractPages_agrees_witness :
  fst (LegacyPDFProcessor.extractPages 0 3 5 tenPages)
  = fst (PDFProcessor.extractPages 0 3 5 tenPages).
Proof.
  exact (proj1 (legacy_extractPages_agrees tenPages 0%nat _ 3 5 eq_refl)).
Defined.

(** ** [splitPDF] *)

Section SplitFacts.

Import Adapter.

Implicit Types (w : World) (this : PDFResectorModal.modal).

Variable toLowerCase : jsstring -> jsstring.

Lemma splitPDF_rejected sourcePath this w validationError :
  PDFResectorModal.validateInput this w = Some validationError ->
  PDFResectorModal.splitPDF sourcePath toLowerCase this w
  = ((PDFResectorModal.mkOutcome validationError false, this), w).
Proof. intros H. unfold PDFResectorModal.splitPDF. now rewrite H. Qed.

Lemma splitPDF_resolved c rest this w d :
  PDFResectorModal.validateInput this w = None ->
  PDFResectorModal.doc this = Some d ->
  PDFResectorModal.splitPDF (Some (c :: rest)) toLowerCase this w
  = match splitBody (c :: rest) toLowerCase this d w with
    | (Ok outputPath, w') =>
        ((PDFResectorModal.mkOutcome
            (js "Successfully created " ++ outputPath) true,
          PDFResectorModal.withOutputName this (outputNameOf toLowerCase this)),
         w')
    | (Err error, w') =>
        ((PDFResectorModal.mkOutcome
            (js "Error splitting PDF: " ++ error) false,
          PDFResectorModal.withOutputName this (outputNameOf toLowerCase this)),
         w')
    end.
Proof.
  intros Hv Hd. unfold PDFResectorModal.splitPDF. rewrite Hv, Hd. reflexivity.
Qed.

(** [savePDF], when it returns: the path was accepted and the final path
    holds the serialized document. *)
Lemma savePDF_ok_inv doc path w w' :
  PDFProcessor.savePDF doc path w = (Ok tt, w') ->
  SafetyUtils.isPathInVault path = true /\
  exists pdfBytes,
    serialize w doc = Ok pdfBytes /\
    files w' !! safePathOf path = Some pdfBytes.
Proof.
  rewrite savePDF_unfold. unfold bind at 1.
  destruct (SafetyUtils.validateAndCreatePath path w) as [[sp|e] w1] eqn:E1;
    [|discriminate].
  apply validate_inv in E1 as ((F1 & D1 & C1) & Hsp).
  destruct (Hsp sp eq_refl) as [-> Hv]. clear Hsp.
  set (sp := safePathOf path). unfold bind, try_catch at 1.
  destruct (writeSteps doc sp (sp ++ js ".temp") w1) as [[[]|e] w2] eqn:E2.
  - apply writeSteps_inv in E2 as (pdfBytes & Hser & F2).
    unfold try_catch, bind.
    destruct (exists_ sp w2) as [[[|]|e] w3] eqn:E3; try discriminate.
    apply exists_inv in E3 as (F3 & _ & _). unfold ret. intros [= <-].
    split; [exact Hv|]. exists pdfBytes. split.
    + unfold serialize, PdfLib.deref in *. now rewrite <- D1, <- C1.
    + now rewrite F3.
  - destruct (try_catch _ _ w2) as [[[]|e'] w3]; discriminate.
Qed.

Lemma splitBody_ok sourcePath this d ps w outputPath w' :
  PDFResectorModal.validateInput this w = None ->
  PDFResectorModal.doc this = Some d -> docs w !! d = Some ps ->
  splitBody sourcePath toLowerCase this d w = (Ok outputPath, w') ->
  outputPath = outputPathOf sourcePath toLowerCase this /\
  SafetyUtils.isPathInVault outputPath = true /\
  exists pdfBytes,
    codec w (pageRange ps (PDFResectorModal.startPage this)
                       (PDFResectorModal.endPage this)) = Ok pdfBytes /\
    files w' !! safePathOf outputPath = Some pdfBytes.
Proof.
  intros Hv Hd Hps.
  apply validateInput_accepts in Hv as (_ & _ & d' & Hd' & H1 & H2 & H3).
  rewrite Hd in Hd'. injection Hd' as <-.
  unfold PdfLib.getPageCount, PdfLib.deref in H3. rewrite Hps in H3. simpl in H3.
  unfold splitBody.
  rewrite (bind_ok _ _ _ _ _ (extractPages_ok w d ps _ _ Hps H1 H2 H3)).
  set (w1 := withDocs w _). set (p := outputPathOf sourcePath toLowerCase this).
  destruct (SafetyUtils.isPathInVault p) eqn:Ev; cbn beta iota delta [negb];
    [|discriminate].
  unfold ret at 1. unfold bind at 1. unfold bind at 1.
  destruct (PDFProcessor.savePDF (length (docs w)) p w1) as [[[]|e] w2] eqn:E2;
    [|discriminate].
  apply savePDF_ok_inv in E2 as (_ & pdfBytes & Hser & F2).
  unfold bind at 1.
  destruct (exists_ p w2) as [[ex|e] w3] eqn:E3; [|discriminate].
  apply exists_inv in E3 as (F3 & _ & _).
  assert (Hser' : codec w (pageRange ps (PDFResectorModal.startPage this)
                                     (PDFResectorModal.endPage this))
                  = Ok pdfBytes).
  { unfold serialize, PdfLib.deref, w1, withDocs in Hser. simpl in Hser.
    rewrite lookup_app_r in Hser by lia. now rewrite Nat.sub_diag in Hser. }
  destruct ex.
  - unfold bind.
    destruct (stat p w3) as [[st|e] w4] eqn:E4; [|discriminate].
    apply stat_inv in E4 as ((F4 & _ & _) & _).
    unfold ret. intros [= <- <-]. split; [reflexivity|].
    split; [exact Ev|]. exists pdfBytes.
    split; [exact Hser'|congruence].
  - unfold bind, ret. intros [= <- <-]. split; [reflexivity|].
    split; [exact Ev|]. exists pdfBytes.
    split; [exact Hser'|congruence].
Qed.

End SplitFacts.

Section SplitMore.

Import Adapter.

Implicit Types (w : World) (this : PDFResectorModal.modal).

Variable toLowerCase : jsstring -> jsstring.

Lemma stat_quiet p w :
  pending w = [] -> exists st, stat p w = (Ok st, w).
Proof. intros H. unfold stat. rewrite call_calm by exact H. eauto. Qed.

(** The [try] block changes files only where [savePDF] does, and leaves
    the documents that were there. *)
Lemma splitBody_frame sourcePath this d w r w' q :
  splitBody sourcePath toLowerCase this d w = (r, w') ->
  q <> safePathOf (outputPathOf sourcePath toLowerCase this) ->
  q <> safePathOf (outputPathOf sourcePath toLowerCase this) ++ js ".temp" ->
  files w' !! q = files w !! q /\
  forall d', (d' < length (docs w))%nat -> docs w' !! d' = docs w !! d'.
Proof.
  intros H Hq Ht. revert H. unfold splitBody. unfold bind at 1.
  destruct (PDFProcessor.extractPages d _ _ w) as [[newDoc|e] w1] eqn:E1;
    apply extractPages_onlyNew in E1 as (F1 & _ & D1).
  2: { intros [= _ <-]. split; [congruence|exact D1]. }
  set (p := outputPathOf sourcePath toLowerCase this) in *.
  destruct (SafetyUtils.isPathInVault p); cbn beta iota delta [negb].
  2: { unfold throw, bind. intros [= _ <-]. split; [congruence|exact D1]. }
  unfold ret at 1. unfold bind at 1. unfold bind at 1.
  destruct (PDFProcessor.savePDF newDoc p w1) as [[[]|e] w2] eqn:E2;
    apply (savePDF_frame _ _ _ _ _ q) in E2 as (F2 & D2); unfold tempPathOf;
    try assumption.
  2: { intros [= _ <-]. split; [congruence|]. intros d' Hd'.
       rewrite D2. now apply D1. }
  unfold bind at 1.
  destruct (exists_ p w2) as [[ex|e] w3] eqn:E3;
    apply exists_inv in E3 as (F3 & D3 & _).
  2: { intros [= _ <-]. split; [congruence|]. intros d' Hd'.
       rewrite D3, D2. now apply D1. }
  destruct ex.
  - unfold bind.
    destruct (stat p w3) as [[st|e] w4] eqn:E4;
      apply stat_inv in E4 as ((F4 & D4 & _) & _); unfold ret;
      intros [= _ <-]; (split; [congruence|]); intros d' Hd';
      rewrite D4, D3, D2; now apply D1.
  - unfold bind, ret. intros [= _ <-]. split; [congruence|].
    intros d' Hd'. rewrite D3, D2. now apply D1.
Qed.

Lemma splitBody_quiet sourcePath this d ps w pdfBytes :
  PDFResectorModal.validateInput this w = None ->
  PDFResectorModal.doc this = Some d -> docs w !! d = Some ps ->
  SafetyUtils.isPathInVault (outputPathOf sourcePath toLowerCase this) = true ->
  pending w = [] ->
  safePathOf (outputPathOf sourcePath toLowerCase this) ∉ dirs w ->
  codec w (pageRange ps (PDFResectorModal.startPage this)
                     (PDFResectorModal.endPage this)) = Ok pdfBytes ->
  exists w',
    splitBody sourcePath toLowerCase this d w
    = (Ok (outputPathOf sourcePath toLowerCase this), w').
Proof.
  intros Hv Hd Hps Hpath Hcalm Hdir Hcodec.
  apply validateInput_accepts in Hv as (_ & _ & d' & Hd' & H1 & H2 & H3).
  rewrite Hd in Hd'. injection Hd' as <-.
  unfold PdfLib.getPageCount, PdfLib.deref in H3. rewrite Hps in H3. simpl in H3.
  unfold splitBody.
  rewrite (bind_ok _ _ _ _ _ (extractPages_ok w d ps _ _ Hps H1 H2 H3)).
  set (w1 := withDocs w _). set (p := outputPathOf sourcePath toLowerCase this).
  fold p in Hpath, Hdir. rewrite Hpath. cbn beta iota delta [negb].
  unfold ret at 1. unfold bind at 1.
  assert (Hser : serialize w1 (length (docs w)) = Ok pdfBytes).
  { unfold serialize, PdfLib.deref, w1, withDocs. simpl.
    rewrite lookup_app_r by lia. now rewrite Nat.sub_diag. }
  destruct (savePDF_quiet (length (docs w)) p w1 pdfBytes Hpath Hcalm Hser Hdir)
    as (w2 & E2 & _ & _ & Hc2).
  rewrite (bind_ok _ _ _ _ _ E2).
  rewrite (bind_ok _ _ _ _ _ (exists_calm p w2 Hc2)).
  destruct (present p w2).
  - destruct (stat_quiet p w2 Hc2) as [st Hst].
    unfold bind at 1. unfold bind at 1. rewrite Hst. unfold ret. eauto.
  - unfold ret, bind. eauto.
Qed.

End SplitMore.

(** X24.  When [splitPDF] closes the modal (and shows its success notice),
    the input had been accepted by [validateInput], the source file
    resolved, the output path accepted by [isPathInVault], and the file
    with the serialized pages [startPage .. endPage] of the loaded
    document is at the path [validateAndCreatePath] returns for the
    output path.  The notice names the output path as it was before
    sanitization. *)
Theorem splitPDF_success (sourcePath : option jsstring)
        (toLowerCase : jsstring -> jsstring) (this this' : PDFResectorModal.modal)
        (w w' : World) (out : PDFResectorModal.outcome) :
  PDFResectorModal.splitPDF sourcePath toLowerCase this w = ((out, this'), w') ->
  PDFResectorModal.closed out = true ->
  exists source d ps pdfBytes,
    sourcePath = Some source /\
    PDFResectorModal.validateInput this w = None /\
    PDFResectorModal.doc this = Some d /\ docs w !! d = Some ps /\
    PDFResectorModal.notice out
    = js "Successfully created " ++ outputPathOf source toLowerCase this /\
    SafetyUtils.isPathInVault (outputPathOf source toLowerCase this) = true /\
    codec w (pageRange ps (PDFResectorModal.startPage this)
                       (PDFResectorModal.endPage this)) = Ok pdfBytes /\
    files w' !! safePathOf (outputPathOf source toLowerCase this)
    = Some pdfBytes.
Proof.
  intros H Hclosed.
  destruct (PDFResectorModal.validateInput this w) as [msg|] eqn:Hv.
  { rewrite (splitPDF_rejected toLowerCase sourcePath this w msg Hv) in H.
    injection H as <- _ _. discriminate Hclosed. }
  pose proof Hv as Hacc.
  apply validateInput_accepts in Hacc as (_ & _ & d & Hd & H1 & H2 & H3).
  unfold PdfLib.getPageCount, PdfLib.deref in H3.
  destruct (docs w !! d) as [ps|] eqn:Hps; [|simpl in H3; lia].
  destruct sourcePath as [[|c rest]|].
  1, 3: unfold PDFResectorModal.splitPDF in H; rewrite Hv, Hd in H;
    injection H as <- _ _; discriminate Hclosed.
  rewrite (splitPDF_resolved toLowerCase c rest this w d Hv Hd) in H.
  destruct (splitBody (c :: rest) toLowerCase this d w)
    as [[outputPath|e] w1] eqn:E; injection H as <- _ <-;
    [|discriminate Hclosed].
  destruct (splitBody_ok toLowerCase _ _ _ _ _ _ _ Hv Hd Hps E)
    as (-> & Hpath & pdfBytes & Hcodec & Hfile).
  exists (c :: rest), d, ps, pdfBytes. repeat split; assumption.
Qed.

Lemma splitPDF_success_witness :
  exists pdfBytes,
    files (snd (PDFResectorModal.splitPDF (Some (js "books/book.pdf"))
                  asciiLower spacedModal tenPages))
      !! js "books/part one.pdf"
    = Some pdfBytes.
Proof.
  assert (E : PDFResectorModal.splitPDF (Some (js "books/book.pdf")) asciiLower
                spacedModal tenPages
              = ((PDFResectorModal.mkOutcome
                    (js "Successfully created books/part  one.pdf") true,
                  PDFResectorModal.withOutputName spacedModal
                    (js "part  one.pdf")),
                 snd (PDFResectorModal.splitPDF (Some (js "books/book.pdf"))
                        asciiLower spacedModal tenPages)))
    by (vm_compute; reflexivity).
  destruct (splitPDF_success _ _ _ _ _ _ _ E eq_refl)
    as (source & d & ps & pdfBytes & [= <-] & _ & _ & _ & _ & _ & _ & H).
  exists pdfBytes. exact H.
Defined.

(** X25.  Whatever happens, [splitPDF] changes no file other than the one
    at the final path for its output path and the temporary file beside
    it, and no document that was there before; when [validateInput]
    refuses the input it changes nothing at all. *)
Theorem splitPDF_footprint (sourcePath : option jsstring)
        (toLowerCase : jsstring -> jsstring) (this : PDFResectorModal.modal)
        (w : World) (q : jsstring) :
  (forall source,
      sourcePath = Some source ->
      q <> safePathOf (outputPathOf source toLowerCase this) /\
      q <> safePathOf (outputPathOf source toLowerCase this) ++ js ".temp") ->
  files (snd (PDFResectorModal.splitPDF sourcePath toLowerCase this w)) !! q
  = files w !! q /\
  (forall d,
      (d < length (docs w))%nat ->
      docs (snd (PDFResectorModal.splitPDF sourcePath toLowerCase this w)) !! d
      = docs w !! d) /\
  (forall validationError,
      PDFResectorModal.validateInput this w = Some validationError ->
      PDFResectorModal.splitPDF sourcePath toLowerCase this w
      = ((PDFResectorModal.mkOutcome validationError false, this), w)).
Proof.
  intros Hq.
  split; [|split; [|intros msg Hmsg; now apply splitPDF_rejected]].
  all: destruct (PDFResectorModal.validateInput this w) as [msg|] eqn:Hv;
    [now rewrite (splitPDF_rejected toLowerCase sourcePath this w msg Hv)|].
  all: pose proof Hv as Hacc;
    apply validateInput_accepts in Hacc as (_ & _ & d0 & Hd & _).
  all: destruct sourcePath as [[|c rest]|];
    [unfold PDFResectorModal.splitPDF; now rewrite Hv, Hd
    | |unfold PDFResectorModal.splitPDF; now rewrite Hv, Hd].
  all: rewrite (splitPDF_resolved toLowerCase c rest this w d0 Hv Hd);
    destruct (Hq (c :: rest) eq_refl) as [Hq1 Hq2];
    destruct (splitBody (c :: rest) toLowerCase this d0 w)
      as [[outputPath|e] w1] eqn:E;
    apply (splitBody_frame toLowerCase _ _ _ _ _ _ q) in E as [F D];
    try assumption; simpl.
  all: try exact F. all: exact D.
Qed.

Lemma splitPDF_footprint_witness :
  files (snd (PDFResectorModal.splitPDF (Some (js "books/book.pdf"))
                asciiLower spacedModal diskFull)) !! js "out.pdf"
  = files diskFull !! js "out.pdf".
Proof.
  refine (proj1 (splitPDF_footprint (Some (js "books/book.pdf")) asciiLower
                   spacedModal diskFull (js "out.pdf") _)).
  intros source [= <-]. split; vm_compute; discriminate.
Defined.

(** X26.  In a quiet environment [splitPDF] succeeds, closing the modal
    with the success notice, whenever [validateInput] accepts the input,
    the source file is resolved, [isPathInVault] accepts the output path,
    no folder is at the final path, and the codec serializes the range. *)
Theorem splitPDF_succeeds_when_quiet (source : jsstring)
        (toLowerCase : jsstring -> jsstring) (this : PDFResectorModal.modal)
        (w : World) (d : PdfLib.handle) (ps : PDFDocument)
        (pdfBytes : list Byte.byte) :
  source <> [] ->
  PDFResectorModal.validateInput this w = None ->
  PDFResectorModal.doc this = Some d -> docs w !! d = Some ps ->
  SafetyUtils.isPathInVault (outputPathOf source toLowerCase this) = true ->
  pending w = [] ->
  safePathOf (outputPathOf source toLowerCase this) ∉ dirs w ->
  codec w (pageRange ps (PDFResectorModal.startPage this)
                     (PDFResectorModal.endPage this)) = Ok pdfBytes ->
  fst (PDFResectorModal.splitPDF (Some source) toLowerCase this w)
  = (PDFResectorModal.mkOutcome
       (js "Successfully created " ++ outputPathOf source toLowerCase this)
       true,
     PDFResectorModal.withOutputName this (outputNameOf toLowerCase this)).
Proof.
  intros Hsrc Hv Hd Hps Hpath Hcalm Hdir Hcodec.
  destruct source as [|c rest]; [contradiction|].
  rewrite (splitPDF_resolved toLowerCase c rest this w d Hv Hd).
  destruct (splitBody_quiet toLowerCase (c :: rest) this d ps w pdfBytes
              Hv Hd Hps Hpath Hcalm Hdir Hcodec) as [w' E].
  now rewrite E.
Qed.

Lemma splitPDF_succeeds_when_quiet_witness :
  fst (PDFResectorModal.splitPDF (Some (js "books/book.pdf")) asciiLower
         spacedModal tenPages)
  = (PDFResectorModal.mkOutcome
       (js "Successfully created "
          ++ outputPathOf (js "books/book.pdf") asciiLower spacedModal)
       true,
     PDFResectorModal.withOutputName spacedModal
       (outputNameOf asciiLower spacedModal)).
Proof.
  assert (Hs : js "books/book.pdf" <> []) by discriminate.
  assert (Hv : PDFResectorModal.validateInput spacedModal tenPages = None)
    by (vm_compute; reflexivity).
  assert (Hp : SafetyUtils.isPathInVault
                 (outputPathOf (js "books/book.pdf") asciiLower spacedModal)
               = true) by (vm_compute; reflexivity).
  assert (Hd : safePathOf (outputPathOf (js "books/book.pdf") asciiLower
                                        spacedModal) ∉ dirs tenPages)
    by (apply (bool_decide_unpack _); vm_compute; exact I).
  exact (splitPDF_succeeds_when_quiet (js "books/book.pdf") asciiLower
           spacedModal tenPages 0%nat _ [Byte.x03; Byte.x04; Byte.x05]
           Hs Hv eq_refl eq_refl Hp eq_refl Hd eq_refl).
Defined.

(** ** The first versions of [loadPDF] and [savePDF] *)

Section LegacyMore.

Import Adapter.

Implicit Types (w : World) (p : jsstring).

Lemma legacy_savePDF_quiet doc p w pdfBytes :
  pending w = [] -> serialize w doc = Ok pdfBytes ->
  LegacyPDFProcessor.savePDF doc p w
  = (Ok tt,
     mkWorld (<[p := pdfBytes]> (files w)) (dirs w) (docs w) (codec w)
             (pending w)).
Proof.
  intros Hcalm Hser. unfold LegacyPDFProcessor.savePDF.
  assert (Hsave : PdfLib.save doc w = (Ok pdfBytes, w))
    by (unfold PdfLib.save; now rewrite <- Hser).
  rewrite (bind_ok _ _ _ _ _ Hsave). now apply write_calm.
Qed.

End LegacyMore.

(** X27.  In a quiet environment, when no file at the path has more than
    100 MiB, the present [loadPDF] does what the first version did, with
    [Failed to load PDF: ] put before the message of a failure: the size
    check is all that separates them. *)
Theorem loadPDF_agrees_with_legacy (parse : list Byte.byte -> Res PDFDocument)
        (path : jsstring) (w : World) :
  pending w = [] ->
  (forall data,
      files w !! path = Some data ->
      Z.of_nat (length data) <= 100 * 1024 * 1024) ->
  PDFProcessor.loadPDF parse path w
  = match LegacyPDFProcessor.loadPDF parse path w with
    | (Ok h, w') => (Ok h, w')
    | (Err e, w') => (Err (js "Failed to load PDF: " ++ e), w')
    end.
Proof.
  intros Hcalm Hsize.
  unfold PDFProcessor.loadPDF, LegacyPDFProcessor.loadPDF, try_catch.
  unfold bind at 1. unfold Adapter.stat. rewrite call_calm by exact Hcalm.
  assert (Hgate :
            match
              match files w !! path with
              | Some data => Some (Z.of_nat (length data))
              | None => if bool_decide (path ∈ dirs w) then Some 0 else None
              end
            with
            | Some size =>
                if PDFProcessor.MAX_PDF_SIZE <? size
                then throw (js "File size (" ++ numberToString
                                 (PDFProcessor.roundMB size)
                               ++ js "MB) exceeds maximum allowed size (100MB)")
                else ret tt
            | None => ret tt
            end = ret tt).
  { destruct (files w !! path) as [data|] eqn:E.
    - specialize (Hsize data eq_refl).
      change (100 * 1024 * 1024) with PDFProcessor.MAX_PDF_SIZE in Hsize.
      now destruct (Z.ltb_spec PDFProcessor.MAX_PDF_SIZE
                               (Z.of_nat (length data))); [lia|].
    - now destruct (bool_decide (path ∈ dirs w)). }
  rewrite Hgate. unfold ret at 1. unfold bind at 1.
  destruct (bind (Adapter.readBinary path) _ w) as [[h|e] w']; reflexivity.
Qed.

Lemma loadPDF_agrees_with_legacy_witness :
  PDFProcessor.loadPDF bytePages (js "book.pdf") withBook
  = match LegacyPDFProcessor.loadPDF bytePages (js "book.pdf") withBook with
    | (Ok h, w') => (Ok h, w')
    | (Err e, w') => (Err (js "Failed to load PDF: " ++ e), w')
    end.
Proof.
  apply loadPDF_agrees_with_legacy; [reflexivity|].
  intros data H. vm_compute in H. injection H as <-. vm_compute. discriminate.
Defined.

(** X28.  In a quiet environment, for a path that [validateAndCreatePath]
    returns unchanged, with no folder at it and a codec that serializes
    the document, the present [savePDF] leaves the files the first version
    leaves, less a file at the path followed by [.temp]. *)
Theorem savePDF_agrees_with_legacy (doc : PdfLib.handle) (path : jsstring)
        (w : World) (pdfBytes : list Byte.byte) :
  SafetyUtils.isPathInVault path = true ->
  pending w = [] ->
  serialize w doc = Ok pdfBytes ->
  safePathOf path = path ->
  path ∉ dirs w ->
  fst (PDFProcessor.savePDF doc path w) = Ok tt /\
  fst (LegacyPDFProcessor.savePDF doc path w) = Ok tt /\
  files (snd (PDFProcessor.savePDF doc path w))
  = delete (path ++ js ".temp")
           (files (snd (LegacyPDFProcessor.savePDF doc path w))).
Proof.
  intros Hv Hcalm Hser Hsafe Hdir.
  rewrite <- Hsafe in Hdir.
  destruct (savePDF_quiet doc path w pdfBytes Hv Hcalm Hser Hdir)
    as (w' & E & F & _).
  rewrite E, (legacy_savePDF_quiet doc path w pdfBytes Hcalm Hser). simpl.
  split; [reflexivity|]. split; [reflexivity|].
  rewrite F. unfold tempPathOf. rewrite Hsafe.
  rewrite delete_insert_ne; [reflexivity|].
  intros H. now apply (temp_ne path).
Qed.

Lemma savePDF_agrees_with_legacy_witness :
  files (snd (PDFProcessor.savePDF 0 (js "out.pdf") staleTemp))
  = delete (js "out.pdf" ++ js ".temp")
           (files (snd (LegacyPDFProcessor.savePDF 0 (js "out.pdf") staleTemp))).
Proof.
  assert (Hv : SafetyUtils.isPathInVault (js "out.pdf") = true)
    by (vm_compute; reflexivity).
  assert (Hs : serialize staleTemp 0%nat = Ok [Byte.x01; Byte.x02])
    by (vm_compute; reflexivity).
  assert (Hp : safePathOf (js "out.pdf") = js "out.pdf")
    by (vm_compute; reflexivity).
  assert (Hd : js "out.pdf" ∉ dirs staleTemp)
    by (apply (bool_decide_unpack _); vm_compute; exact I).
  exact (proj2 (proj2 (savePDF_agrees_with_legacy 0%nat (js "out.pdf")
                         staleTemp _ Hv eq_refl Hs Hp Hd))).
Defined.

(** X29.  For a folder name without a slash, [ensureDirectoryExists] of
    [SafetyUtils] does, in every environment, what the first version did:
    one existence check, and one [mkdir] when nothing was there. *)
Theorem ensureDirectoryExists_agrees_with_legacy (directory : jsstring)
        (w : World) :
  directory <> [] -> SLASH ∉ directory ->
  SafetyUtils.ensureDirectoryExists directory w
  = LegacyPDFProcessor.ensureDirectoryExists directory w.
Proof.
  intros Hne Hs. rewrite ensureDirectoryExists_parts. unfold segments.
  rewrite (split_no_sep directory SLASH Hs).
  destruct directory as [|c d]; [contradiction|].
  change (filter _ [c :: d]) with [c :: d].
  rewrite ensureParts_cons. unfold LegacyPDFProcessor.ensureDirectoryExists.
  change (nextPath [] (c :: d)) with (c :: d). unfold bind.
  destruct (Adapter.exists_ (c :: d) w) as [[ex|e] w1]; [|reflexivity].
  destruct ((if negb ex then Adapter.mkdir (c :: d) else ret tt) w1)
    as [[[]|e] w2]; reflexivity.
Qed.

Lemma ensureDirectoryExists_agrees_with_legacy_witness :
  SafetyUtils.ensureDirectoryExists (js "split") raced
  = LegacyPDFProcessor.ensureDirectoryExists (js "split") raced.
Proof.
  apply ensureDirectoryExists_agrees_with_legacy; [discriminate|].
  apply (bool_decide_unpack _). vm_compute. exact I.
Defined.
